(** * pycomposer: RBM/annealing composer and bar noise sampler

    A shallow embedding of

    - [pycomposer/rbm_annealing.py] (class [RBMAnnealing]) and
    - [pycomposer/noisesampler/bar_noise_sampler.py] (class [BarNoiseSampler])

    together with the properties of their natural-language specification.

    Conventions of the embedding.

    - A [float64] cell is either missing ([NaN]) or a finite value, kept as an
      exact rational; rounding and the IEEE infinities are outside the model.
    - A pandas [DataFrame] is the list of its rows.  Columns of integer dtype
      ([pitch], [velocity], [program]) are [Z], without the wrap-around of
      64-bit arithmetic: the model is exact for columns whose differences fit
      in 64 bits.  The time columns are [float64].
    - Python exceptions are values of [exn]; a method that can raise returns a
      [result].
    - [numpy.random] is an explicit random source that is threaded through the
      calls; the abstract hooks [create_rbm] / [create_annealing] and the
      twelve-tone generator are methods of a type class. *)

From stdpp Require Import gmap list numbers sorting strings.
From Stdlib Require Import QArith Qround Qminmax Lqa.

Open Scope Z_scope.

(* ================================================================== *)
(** ** Floating point cells *)

Inductive float64 : Type :=
  | NaN
  | Fin (q : Q).

#[export] Instance float64_inhabited : Inhabited float64 := populate NaN.

Definition Qltb (x y : Q) : bool := negb (Qle_bool y x).

Definition isnan (x : float64) : bool :=
  match x with NaN => true | Fin _ => false end.

Definition fadd (x y : float64) : float64 :=
  match x, y with Fin a, Fin b => Fin (a + b) | _, _ => NaN end.

Definition fsub (x y : float64) : float64 :=
  match x, y with Fin a, Fin b => Fin (a - b) | _, _ => NaN end.

Definition fmul (x y : float64) : float64 :=
  match x, y with Fin a, Fin b => Fin (a * b) | _, _ => NaN end.

(** The only division of the program is by [max - min] of a column, where a
    zero divisor comes with a zero dividend: [0/0] is [NaN]. *)
Definition fdiv (x y : float64) : float64 :=
  match x, y with
  | Fin a, Fin b => if Qeq_bool b 0 then NaN else Fin (a / b)
  | _, _ => NaN
  end.

(** Comparisons with [NaN] are false, as in IEEE 754. *)
Definition flt (x y : float64) : bool :=
  match x, y with Fin a, Fin b => Qltb a b | _, _ => false end.

Definition fgt (x y : float64) : bool := flt y x.

Definition feqb (x y : float64) : bool :=
  match x, y with Fin a, Fin b => Qeq_bool a b | _, _ => false end.

Definition of_int (z : Z) : float64 := Fin (inject_Z z).

(** Equality of cells up to the representation of the rational. *)
Definition feq (x y : float64) : Prop :=
  match x, y with
  | Fin a, Fin b => (a == b)%Q
  | NaN, NaN => True
  | _, _ => False
  end.



(** The finite entries of a column ([skipna=True]). *)
Definition finite_vals (col : list float64) : list Q :=
  omap (λ x, match x with Fin q => Some q | NaN => None end) col.

Definition Qmin_list (l : list Q) : float64 :=
  match l with [] => NaN | q :: l' => Fin (foldr Qmin q l') end.

Definition Qmax_list (l : list Q) : float64 :=
  match l with [] => NaN | q :: l' => Fin (foldr Qmax q l') end.

(** [Series.min()] and [Series.max()]: missing values are skipped and the
    result on an empty column is [NaN]. *)
Definition col_min (col : list float64) : float64 := Qmin_list (finite_vals col).
Definition col_max (col : list float64) : float64 := Qmax_list (finite_vals col).

(* ================================================================== *)
(** ** Exceptions *)

Inductive exn : Type :=
  | AttributeError (attribute : string)
  | ValueError
  | IndexError
  | TypeError
  | OverflowError
  | NotImplementedError.

Inductive result (A : Type) : Type :=
  | Ok (a : A)
  | Raise (e : exn).
Arguments Ok {A} a.
Arguments Raise {A} e.

(* ================================================================== *)
(** ** Note tables *)

(** One row of a note table.  [extra] stands for the columns that the
    arithmetic never reads ([program] of a loaded table, [origin_pitch] of a
    generated one). *)
Record Row (X : Type) : Type := mkRow {
  pitch : Z;
  start : float64;
  end_ : float64;
  duration : float64;
  velocity : Z;
  extra : X
}.
Arguments mkRow {X}.
Arguments pitch {X}.
Arguments start {X}.
Arguments end_ {X}.
Arguments duration {X}.
Arguments velocity {X}.
Arguments extra {X}.

Abbreviation DataFrame X := (list (Row X)).

Definition hasna {X} (r : Row X) : bool :=
  isnan (start r) || isnan (end_ r) || isnan (duration r).

(** [DataFrame.dropna()]. *)
Definition dropna {X} (df : DataFrame X) : DataFrame X :=
  filter (λ r, negb (hasna r)) df.

(** [range(lo, hi)] and [iloc[lo:hi]]. *)
Definition range (lo hi : nat) : list nat := seq lo (hi - lo).

Definition iloc {A} (lo hi : nat) (l : list A) : list A := take (hi - lo) (drop lo l).

(** Three-dimensional [np.ndarray] of floats with its [shape]. *)
Record ndarray3 : Type := mkArr3 {
  shape : nat * nat * nat;
  data : list (list (list float64))
}.

Definition shape0 (a : ndarray3) : nat := (shape a).1.1.


(* ================================================================== *)
(** ** [RBMAnnealing.__preprocess] *)

(** A row after the min-max scaling: every column has become a float. *)
Record Scaled : Type := mkScaled {
  s_pitch : float64;
  s_start : float64;
  s_end : float64;
  s_duration : float64;
  s_velocity : float64
}.

(** [(x - col.min()) / (col.max() - col.min())] *)
Definition minmax (col : list float64) (x : float64) : float64 :=
  fdiv (fsub x (col_min col)) (fsub (col_max col) (col_min col)).

Definition normalise {X} (midi_df : DataFrame X) : list Scaled :=
  let pitch_col := (λ r, of_int (pitch r)) <$> midi_df in
  let start_col := start <$> midi_df in
  let end_col := end_ <$> midi_df in
  let duration_col := duration <$> midi_df in
  let velocity_col := (λ r, of_int (velocity r)) <$> midi_df in
  (λ r, {| s_pitch := minmax pitch_col (of_int (pitch r));
           s_start := minmax start_col (start r);
           s_end := minmax end_col (end_ r);
           s_duration := minmax duration_col (duration r);
           s_velocity := minmax velocity_col (of_int (velocity r)) |}) <$> midi_df.


(** [df[["pitch", "start", "duration", "velocity"]].values] of one row. *)
Definition feature_values (s : Scaled) : list float64 :=
  [s_pitch s; s_start s; s_duration s; s_velocity s].

(** [np.empty] refuses a negative dimension with a [ValueError]; otherwise the
    loop over [range(cycle_len, rows)] writes every window [i - cycle_len]
    exactly once, in increasing order. *)
Definition __preprocess {X} (midi_df_ : DataFrame X) (cycle_len : nat) : result ndarray3 :=
  let midi_df := normalise (dropna midi_df_) in
  let rows := length midi_df in
  if decide (rows < cycle_len)%nat then Raise ValueError
  else Ok {| shape := ((rows - cycle_len)%nat, cycle_len, 4%nat);
             data := (λ i, feature_values <$> iloc (i - cycle_len) i midi_df)
                       <$> range cycle_len rows |}.

(* ================================================================== *)
(** ** Effects: exceptions over an explicit state *)

(** A computation over a state [S] that returns or raises; the state reached
    is kept in both cases (a raise does not undo earlier mutations). *)
Definition M (S A : Type) : Type := S → result A * S.

Definition ret {S A} (a : A) : M S A := λ s, (Ok a, s).

Definition raise {S A} (e : exn) : M S A := λ s, (Raise e, s).

Definition bind {S A B} (m : M S A) (k : A → M S B) : M S B := λ s,
  match m s with
  | (Ok a, s') => k a s'
  | (Raise e, s') => (Raise e, s')
  end.

(** A call that can raise but touches no state. *)
Definition lift {S A} (r : result A) : M S A := λ s, (r, s).

Declare Scope py_scope.
Delimit Scope py_scope with py.
Notation "x <~ m ;; k" := (bind m (λ x, k))
  (at level 100, m at next level, right associativity,
   format "x  <~  m  ;;  '//' k") : py_scope.
Open Scope py_scope.

(** [for x in l: acc = body(acc, x)] *)
Fixpoint for_each {S A B} (l : list A) (body : B → A → M S B) (acc : B) : M S B :=
  match l with
  | [] => ret acc
  | x :: l' => acc' <~ body acc x ;; for_each l' body acc'
  end.

(** [seq[k]] on a Python sequence: a negative index counts from the end. *)
Definition py_index (len : nat) (k : Z) : option nat :=
  if decide (0 ≤ k < Z.of_nat len) then Some (Z.to_nat k)
  else if decide (- Z.of_nat len ≤ k < 0) then Some (Z.to_nat (Z.of_nat len + k))
  else None.

Definition py_getitem {A} (l : list A) (k : Z) : result A :=
  match py_index (length l) k with
  | Some i => match l !! i with Some x => Ok x | None => Raise IndexError end
  | None => Raise IndexError
  end.

Definition py_setitem {A} (l : list A) (k : Z) (x : A) : result (list A) :=
  match py_index (length l) k with
  | Some i => Ok (<[i := x]> l)
  | None => Raise IndexError
  end.

(* ================================================================== *)
(** ** The process-wide random source *)

(** [numpy.random] seen from outside: every draw consumes the generator state.
    [randint_raw] and [uniform_raw] receive the bounds they were called with. *)
Class RandomSource (G : Type) : Type := {
  randint_raw : Z → Z → G → Z * G;
  uniform_raw : Q → Q → G → Q * G;
  standard_normal : G → Q * G
}.

(** [np.random.randint(low, high)]: an integer of [[low, high)], and a
    [ValueError] on an empty interval. *)
Definition randint `{RandomSource G} (low high : Z) : M G Z := λ g,
  if decide (high ≤ low) then (Raise ValueError, g)
  else let '(z, g') := randint_raw low high g in
       (Ok (low + (z - low) `mod` (high - low)), g').

(** [np.random.uniform(low, high)]: the range [high - low] must be finite,
    which here means that neither bound is [NaN]; otherwise the call raises
    an [OverflowError] before anything is drawn. *)
Definition uniform `{RandomSource G} (low high : float64) : M G float64 := λ g,
  match low, high with
  | Fin l, Fin h => let '(x, g') := uniform_raw l h g in (Ok (Fin x), g')
  | _, _ => (Raise OverflowError, g)
  end.

(** [np.random.normal(loc, scale, size)]: [size] successive draws. *)
Fixpoint normal `{RandomSource G} (loc scale : float64) (size : nat) (g : G)
  : list float64 * G :=
  match size with
  | O => ([], g)
  | S n => let '(z, g') := standard_normal g in
           let '(l, g'') := normal loc scale n g' in
           (fadd loc (fmul scale (Fin z)) :: l, g'')
  end.

(** A random source that replays a tape of numbers; an exhausted tape yields
    zeros. *)
Definition tape_next (g : list Q) : Q * list Q :=
  match g with [] => (0%Q, []) | x :: g' => (x, g') end.

#[export] Instance TapeRandom : RandomSource (list Q) := {|
  randint_raw := λ _ _ g, let '(x, g') := tape_next g in (Qfloor x, g');
  uniform_raw := λ _ _ g, tape_next g;
  standard_normal := tape_next
|}.

(* ================================================================== *)
(** ** [BarNoiseSampler] *)

Module BarNoiseSampler.

(** Four-dimensional array [(batch, channel, seq, pitch)]. *)
Record ndarray4 : Type := mkArr4 {
  shape4 : nat * nat * nat * nat;
  data4 : list (list (list (list Q)))
}.

Definition well_shaped4 (a : ndarray4) : Prop :=
  let '(b, c, s, d) := shape4 a in
  length (data4 a) = b ∧
  Forall (λ x, length x = c ∧
    Forall (λ y, length y = s ∧
      Forall (λ v, length v = d) y) x) (data4 a).

Definition bit (e : Q) : Prop := e = 0%Q ∨ e = 1%Q.

Definition binary (a : ndarray4) : Prop :=
  Forall (Forall (Forall (Forall bit))) (data4 a).

(** Shape and contents that every stage of [generate] keeps. *)
Definition sound (sh : nat * nat * nat * nat) (a : ndarray4) : Prop :=
  shape4 a = sh ∧ well_shaped4 a ∧ binary a.

(** [a[batch, i]] and [a[batch, i, seq]] *)
Definition chan (a : ndarray4) (batch i : nat) : option (list (list Q)) :=
  data4 a !! batch ≫= (.!! i).

Definition bar (a : ndarray4) (batch i seq : nat) : option (list Q) :=
  chan a batch i ≫= (.!! seq).

(** [np.zeros(n)] for a one-dimensional array. *)
Definition np_zeros (n : Z) : result (list Q) :=
  if decide (n < 0) then Raise ValueError else Ok (replicate (Z.to_nat n) 0%Q).

Definition np_zeros4 (b c s : nat) (d : Z) : result ndarray4 :=
  if decide (d < 0) then Raise ValueError
  else Ok {| shape4 := (b, c, s, Z.to_nat d);
             data4 := replicate b (replicate c (replicate s (replicate (Z.to_nat d) 0%Q))) |}.

(** The private attributes of a sampler; the [program] column of a table is
    its [extra] column. *)
Record t : Type := mkSampler {
  midi_df_list : list (DataFrame Z);
  batch_size : nat;
  seq_len : nat;
  channel : nat;
  program_list : list Z;
  time_fraction : Q;
  min_pitch : Z;
  max_pitch : Z;
  dim : Z
}.

(** [Series.drop_duplicates()] keeps the first occurrence of each value. *)
Definition drop_duplicates (l : list Z) : list Z := reverse (remove_dups (reverse l)).

(** [list(set(l))]: the distinct values.  CPython lists them in the order of
    its hash table; here they come in the order of [elements]. *)
Definition list_set (l : list Z) : list Z := elements (list_to_set l : gset Z).

Definition __init__ (midi_df_list : list (DataFrame Z)) (batch_size seq_len : nat)
    (time_fraction : Q) (min_pitch max_pitch : Z) : t :=
  let program_list :=
    foldl (λ acc df, acc ++ drop_duplicates (extra <$> df)) [] midi_df_list in
  let program_list := list_set program_list in
  {| midi_df_list := midi_df_list;
     batch_size := batch_size;
     seq_len := seq_len;
     channel := length program_list;
     program_list := program_list;
     time_fraction := time_fraction;
     min_pitch := min_pitch;
     max_pitch := max_pitch;
     dim := max_pitch - min_pitch |}.

(** One pass of the loop of [__convert_into_feature]. *)
Definition mark_pitch (self : t) (arr : list Q) (r : Row Z) : result (list Q) :=
  if decide (pitch r < max_pitch self - 1)
  then py_setitem arr (pitch r - min_pitch self) 1%Q
  else Ok arr.

Fixpoint mark_pitches (self : t) (df : DataFrame Z) (arr : list Q) : result (list Q) :=
  match df with
  | [] => Ok arr
  | r :: df' =>
      match mark_pitch self arr r with
      | Ok arr' => mark_pitches self df' arr'
      | Raise e => Raise e
      end
  end.

Definition __convert_into_feature (self : t) (df : DataFrame Z) : result (list Q) :=
  match np_zeros (dim self) with
  | Ok arr => mark_pitches self df arr
  | Raise e => Raise e
  end.

(** Bounds of the [seq]-th bar that starts at offset [row]. *)
Definition bar_lo (self : t) (row : float64) (seq : nat) : float64 :=
  fadd row (Fin (inject_Z (Z.of_nat seq) * time_fraction self)).

Definition bar_hi (self : t) (row : float64) (seq : nat) : float64 :=
  fadd row (Fin (inject_Z (Z.of_nat (seq + 1)) * time_fraction self)).

(** The two successive row selections of the inner loop. *)
Definition select_bar (self : t) (midi_df : DataFrame Z) (row : float64) (seq : nat)
  : DataFrame Z :=
  let df := filter (λ r, flt (start r) (bar_lo self row seq)) midi_df in
  filter (λ r, fgt (end_ r) (bar_hi self row seq)) df.

(** [sampled_arr[batch, i, seq] = v].  The three indices come from loops
    over the axes of the array, so they are inside it for a sampler made by
    [__init__]. *)
Definition set_bar (sampled_arr : ndarray4) (batch i seq : nat) (v : list Q) : ndarray4 :=
  {| shape4 := shape4 sampled_arr;
     data4 := alter (alter (<[seq := v]>) i) batch (data4 sampled_arr) |}.

Section generate.
Context `{RandomSource G}.

(** The table picked for channel [i], restricted to the program of the
    channel. *)
Definition draw_table (self : t) (i : nat) : M G (DataFrame Z) :=
  program_key <~ lift (py_getitem (program_list self) (Z.of_nat i)) ;;
  key <~ randint 0 (Z.of_nat (length (midi_df_list self))) ;;
  midi_df <~ lift (py_getitem (midi_df_list self) key) ;;
  ret (filter (λ r, extra r = program_key) midi_df).

(** The offset [row] of the first bar. *)
Definition draw_offset (self : t) (midi_df : DataFrame Z) : M G float64 :=
  uniform (col_min (start <$> midi_df))
    (fsub (col_max (end_ <$> midi_df))
          (Fin (inject_Z (Z.of_nat (seq_len self)) * time_fraction self))).

(** The body of the loop over [i]: one channel of one batch slot. *)
Definition generate_channel (self : t) (batch : nat) (sampled_arr : ndarray4) (i : nat)
  : M G ndarray4 :=
  midi_df <~ draw_table self i ;;
  if decide (length midi_df < seq_len self)%nat then ret sampled_arr
  else
    row <~ draw_offset self midi_df ;;
    for_each (range 0 (seq_len self))
      (λ arr seq,
         v <~ lift (__convert_into_feature self (select_bar self midi_df row seq)) ;;
         ret (set_bar arr batch i seq v))
      sampled_arr.

(** The random draws of one pass of the loop over [i]: the table, and the
    offset when the table has enough rows for one. *)
Definition channel_draws (self : t) (i : nat) : M G (DataFrame Z * option float64) :=
  midi_df <~ draw_table self i ;;
  if decide (length midi_df < seq_len self)%nat then ret (midi_df, None)
  else
    row <~ draw_offset self midi_df ;;
    ret (midi_df, Some row).

(** The draws of a whole call in the order of its two loops: one list per
    batch slot, with one entry per channel. *)
Definition generate_draws (self : t) : M G (list (list (DataFrame Z * option float64))) :=
  for_each (range 0 (batch_size self))
    (λ draws batch,
       slot <~ for_each (range 0 (length (program_list self)))
                 (λ slot i, d <~ channel_draws self i ;; ret (slot ++ [d]))
                 [] ;;
       ret (draws ++ [slot]))
    [].

Definition generate (self : t) : M G ndarray4 :=
  sampled_arr <~ lift (np_zeros4 (batch_size self) (channel self) (seq_len self) (dim self)) ;;
  for_each (range 0 (batch_size self))
    (λ arr batch,
       for_each (range 0 (length (program_list self)))
         (generate_channel self batch) arr)
    sampled_arr.
End generate.

(** What one pass of the loop over [i] leaves in [sampled_arr[batch, i]],
    given its draws: zeros for a table with fewer than [seq_len] rows of the
    program, and otherwise one converted bar per position. *)
Definition slot_content (self : t) (d : DataFrame Z * option float64)
    (content : list (list Q)) : Prop :=
  match d.2 with
  | None =>
      (length d.1 < seq_len self)%nat
      ∧ content = replicate (seq_len self) (replicate (Z.to_nat (dim self)) 0%Q)
  | Some row =>
      (seq_len self ≤ length d.1)%nat
      ∧ length content = seq_len self
      ∧ ∀ seq v, content !! seq = Some v →
          __convert_into_feature self (select_bar self d.1 row seq) = Ok v
  end.

(** The draws of channel [i]: a table of the sampler restricted to the
    program of the channel, and an offset that is a number. *)
Definition drawn_for (self : t) (i : nat) (d : DataFrame Z * option float64) : Prop :=
  (∃ program_key df,
     program_list self !! i = Some program_key
     ∧ df ∈ midi_df_list self
     ∧ d.1 = filter (λ r, extra r = program_key) df)
  ∧ ∀ row, d.2 = Some row → ∃ offset, row = Fin offset.

(** Wording of the specification for the notes of a bar: the interval from
    [start] to [end] of the note lies inside the bar from [lo] to [hi]. *)
Definition spec_fully_inside (lo hi : float64) (r : Row Z) : Prop :=
  match lo, hi, start r, end_ r with
  | Fin l, Fin h, Fin s, Fin e => (l <= s)%Q ∧ (e <= h)%Q
  | _, _, _, _ => False
  end.

(** Wording of the specification for the bits of a bar: bit
    [pitch - min_pitch] is set exactly for the notes inside the bar whose
    pitch is below [max_pitch - 1]. *)
Definition spec_bar_bits (self : t) (midi_df : DataFrame Z) (row : float64) (seq : nat)
    (v : list Q) : Prop :=
  ∀ j : nat, v !! j = Some 1%Q ↔
    ∃ r, r ∈ midi_df
         ∧ spec_fully_inside (bar_lo self row seq) (bar_hi self row seq) r
         ∧ pitch r < max_pitch self - 1
         ∧ Z.of_nat j = pitch r - min_pitch self.

Definition get_channel (self : t) : nat := channel self.
Definition get_program_list (self : t) : list Z := program_list self.

(** The setter shared by the read-only properties. *)
Definition set_readonly {A} (self : t) (value : A) : result t := Raise TypeError.

End BarNoiseSampler.

(** A sampler over one table of two notes of program 0: a long note of pitch
    50 and a short note of pitch 60 that lies inside the bar from 0.4 to 0.5.
    The tape makes [randint] pick table 0 and [uniform] return 0.4. *)
Definition two_note_table : DataFrame Z :=
  [ mkRow 50 (Fin 0) (Fin 1) (Fin 1) 64 0;
    mkRow 60 (Fin 0.42) (Fin 0.48) (Fin 0.06) 64 0 ].

Definition two_note_sampler : BarNoiseSampler.t :=
  BarNoiseSampler.__init__ [two_note_table] 1 1 0.1 24 108.

Definition two_note_tape : list Q := [0%Q; 0.4%Q].

Definition two_note_output : BarNoiseSampler.ndarray4 :=
  Eval vm_compute in
    match BarNoiseSampler.generate two_note_sampler two_note_tape with
    | (Ok a, _) => a
    | (Raise _, _) => BarNoiseSampler.mkArr4 (0, 0, 0, 0)%nat []
    end.

(** A sampler with two batch slots and bars of two positions over one table
    that holds three notes of program 0 and a single note of program 1, so
    that the channel of program 1 stays empty.  The tape gives, for each batch
    slot, the table index of the channel of program 1 and then the table index
    and the offset of the channel of program 0: offsets 0.4 and 0.1. *)
Definition three_note_table : DataFrame Z :=
  [ mkRow 50 (Fin 0) (Fin 1) (Fin 1) 64 0;
    mkRow 60 (Fin 0.42) (Fin 0.48) (Fin 0.06) 64 0;
    mkRow 55 (Fin 0.3) (Fin 0.55) (Fin 0.25) 64 0;
    mkRow 40 (Fin 0) (Fin 1) (Fin 1) 64 1 ].

Definition two_bar_sampler : BarNoiseSampler.t :=
  BarNoiseSampler.__init__ [three_note_table] 2 2 0.1 24 108.

Definition two_bar_tape : list Q := [0%Q; 0%Q; 0.4%Q; 0%Q; 0%Q; 0.1%Q].

Definition two_bar_output : BarNoiseSampler.ndarray4 :=
  Eval vm_compute in
    match BarNoiseSampler.generate two_bar_sampler two_bar_tape with
    | (Ok a, _) => a
    | (Raise _, _) => BarNoiseSampler.mkArr4 (0, 0, 0, 0)%nat []
    end.

(* ================================================================== *)
(** ** [RBMAnnealing] *)

Module RBMAnnealing.

(** Address of a table object; the caller and the composer may hold the same
    address. *)
Abbreviation loc := nat.

(** Two-dimensional float array: the log of the annealing model. *)
Record ndarray2 : Type := mkArr2 {
  shape2 : nat * nat;
  data2 : list (list float64)
}.

(** The columns a generated table has besides the note columns. *)
Record GenCols : Type := mkGenCols {
  origin_pitch : Z;
  feature_pitch : option Z
}.

(** What the composer takes from outside: the two abstract factory hooks with
    the objects they build, the twelve-tone generator, and [Series.std()]
    (a floating square root, not computed here). *)
Class External (G : Type) : Type := {
  RBM : Type;
  create_rbm : nat → nat → Q → RBM;
  rbm_learn : RBM → ndarray3 → nat → nat → G → RBM * G;
  rbm_inference : RBM → ndarray3 → nat → Z → G → ndarray3 * G;
  annealing : ndarray3 * RBM * nat → list (option ndarray3) → nat → G → ndarray2 * G;
  twelve_tone_generate : nat → Z → G → list Z * G;
  std : list Z → float64
}.

(** Column helpers on the reference table. *)
Definition set_start {X} (r : Row X) (x : float64) : Row X :=
  mkRow (pitch r) x (end_ r) (duration r) (velocity r) (extra r).

Definition set_duration {X} (r : Row X) (x : float64) : Row X :=
  mkRow (pitch r) (start r) (end_ r) x (velocity r) (extra r).

Definition set_pitch {X} (r : Row X) (p : Z) : Row X :=
  mkRow p (start r) (end_ r) (duration r) (velocity r) (extra r).

(** [Series.mean()] of an integer column. *)
Definition mean (col : list Z) : float64 :=
  match col with
  | [] => NaN
  | _ => Fin (inject_Z (foldr Z.add 0 col) / inject_Z (Z.of_nat (length col)))
  end.

(** [ndarray.min()]: raises on an empty array and propagates [NaN]. *)
Definition np_min (a : list float64) : result float64 :=
  match a with
  | [] => Raise ValueError
  | _ => if forallb (λ x, negb (isnan x)) a then Ok (col_min a) else Ok NaN
  end.

(** [astype(int)] and [int(x)]: truncation toward zero.  NumPy turns [NaN]
    into the least 64-bit integer, [int] refuses it. *)
Definition Qtrunc (q : Q) : Z := Z.quot (Qnum q) (Z.pos (Qden q)).

Definition astype_int (x : float64) : Z :=
  match x with Fin q => Qtrunc q | NaN => - 2 ^ 63 end.

Definition py_int (x : float64) : result Z :=
  match x with Fin q => Ok (Qtrunc q) | NaN => Raise ValueError end.

(** Order of [sort_values(by=["start", "end"])]: missing keys go last. *)
Definition key_le (a b : float64) : bool :=
  match a, b with
  | _, NaN => true
  | NaN, Fin _ => false
  | Fin x, Fin y => Qle_bool x y
  end.

Definition row_le {X} (r1 r2 : Row X) : bool :=
  negb (key_le (start r2) (start r1))
  || (key_le (start r1) (start r2) && key_le (end_ r1) (end_ r2)).

(** The sort is stable: rows that agree on both keys keep the order they
    had. *)
Fixpoint insert_sorted {X} (r : Row X) (df : DataFrame X) : DataFrame X :=
  match df with
  | [] => [r]
  | r' :: df' => if row_le r r' then r :: df else r' :: insert_sorted r df'
  end.

Definition sort_values {X} (df : DataFrame X) : DataFrame X :=
  foldr insert_sorted [] df.

(** [np.c_] of five one-dimensional arrays, as the rows of the new table
    with columns pitch, origin_pitch, start, duration, velocity; the [end]
    column is assigned later and holds [NaN] until then. *)
Definition np_c_ (pitch_arr : list Z) (start_arr duration_arr : list float64)
    (velocity_arr : list Z) : result (DataFrame GenCols) :=
  if decide (length pitch_arr = length start_arr
             ∧ length start_arr = length duration_arr
             ∧ length duration_arr = length velocity_arr)
  then Ok (zip_with (λ ps dv, mkRow ps.1 ps.2 NaN dv.1 dv.2 (mkGenCols ps.1 None))
             (zip pitch_arr start_arr) (zip duration_arr velocity_arr))
  else Raise ValueError.

(** The index expression of the optimum:
    [int(log[log[:, 5] == log[:, 5].min()][0][4])]. *)
Definition column (k : nat) (a : ndarray2) : result (list float64) :=
  if decide (k < (shape2 a).2)%nat then Ok ((λ r, r !!! k) <$> data2 a)
  else Raise IndexError.

Definition optimum_index (predicted_log_arr : ndarray2) : result Z :=
  match column 5 predicted_log_arr with
  | Raise e => Raise e
  | Ok scores =>
      match np_min scores with
      | Raise e => Raise e
      | Ok m =>
          match filter (λ r, feqb (r !!! 5%nat) m) (data2 predicted_log_arr) with
          | [] => Raise IndexError
          | r :: _ => py_int (r !!! 4%nat)
          end
      end
  end.

(** [opt_df["feature_pitch"] = opt_df["pitch"]] and
    [opt_df["pitch"] = opt_df["origin_pitch"]]. *)
Definition restore_pitch (opt_df : DataFrame GenCols) : DataFrame GenCols :=
  (λ r, mkRow (origin_pitch (extra r)) (start r) (end_ r) (duration r) (velocity r)
          (mkGenCols (origin_pitch (extra r)) (Some (pitch r)))) <$> opt_df.





(** [test_arr[:n]] *)
Definition truncate (n : nat) (a : ndarray3) : ndarray3 :=
  mkArr3 (min n (shape a).1.1, (shape a).1.2, (shape a).2) (take n (data a)).

(** [params_arr[i] = test_arr]: row [i] of the parameter array has the
    observed shape, which is also the shape of [test_arr] once [learn] has
    run with the same [cycle_len]; any other shape is refused here. *)
Definition assign_row (params_arr : list (option ndarray3)) (i : nat)
    (observed_shape : nat * nat * nat) (test_arr : ndarray3)
  : result (list (option ndarray3)) :=
  if decide (shape test_arr = observed_shape)
  then Ok (<[i := Some test_arr]> params_arr)
  else Raise ValueError.

Section composer.
Context `{RandomSource G} `{External G}.

(** The attributes of a composer; an attribute that no method has assigned
    yet is [None]. *)
Record t : Type := mkComposer {
  cycle_len : nat;
  epoch : nat;
  batch_size : nat;
  learning_rate : Q;
  hidden_num : nat;
  annealing_cycles : nat;
  max_pitch : option float64;
  min_pitch : option float64;
  observed_shape : option (nat * nat * nat);
  midi_df : option loc;
  rbm : option RBM;
  inferenced_arr : option ndarray3;
  predicted_log_arr : option ndarray2;
  generated_df_list : option (list (option (DataFrame GenCols)))
}.

Definition __init__ (cycle_len epoch batch_size : nat) (learning_rate : Q)
    (hidden_num annealing_cycles : nat) : t :=
  mkComposer cycle_len epoch batch_size learning_rate hidden_num annealing_cycles
    None None None None None None None None.

(** The running program: the composer object, the table objects and the
    random source. *)
Record Process : Type := mkProcess {
  self : t;
  heap : gmap loc (DataFrame Z);
  rng : G
}.

Definition get_self : M Process t := λ s, (Ok (self s), s).

Definition getattr {A} (name : string) (field : t → option A) : M Process A := λ s,
  match field (self s) with
  | Some a => (Ok a, s)
  | None => (Raise (AttributeError name), s)
  end.

Definition update_self (f : t → t) : M Process unit := λ s,
  (Ok (), mkProcess (f (self s)) (heap s) (rng s)).

Definition load (l : loc) : M Process (DataFrame Z) := λ s, (Ok (heap s !!! l), s).

Definition store (l : loc) (df : DataFrame Z) : M Process unit := λ s,
  (Ok (), mkProcess (self s) (<[l := df]> (heap s)) (rng s)).

Definition draw {A} (f : G → A * G) : M Process A := λ s,
  let '(a, g) := f (rng s) in (Ok a, mkProcess (self s) (heap s) g).

Definition set_pitch_range (hi lo : float64) (c : t) : t :=
  mkComposer (cycle_len c) (epoch c) (batch_size c) (learning_rate c) (hidden_num c)
    (annealing_cycles c) (Some hi) (Some lo) (observed_shape c) (midi_df c) (rbm c)
    (inferenced_arr c) (predicted_log_arr c) (generated_df_list c).

Definition set_learned (sh : nat * nat * nat) (l : loc) (r : RBM) (inf : ndarray3) (c : t) : t :=
  mkComposer (cycle_len c) (epoch c) (batch_size c) (learning_rate c) (hidden_num c)
    (annealing_cycles c) (max_pitch c) (min_pitch c) (Some sh) (Some l) (Some r)
    (Some inf) (predicted_log_arr c) (generated_df_list c).

Definition set_composed (log : ndarray2) (dfs : list (option (DataFrame GenCols))) (c : t) : t :=
  mkComposer (cycle_len c) (epoch c) (batch_size c) (learning_rate c) (hidden_num c)
    (annealing_cycles c) (max_pitch c) (min_pitch c) (observed_shape c) (midi_df c) (rbm c)
    (inferenced_arr c) (Some log) (Some dfs).

(** [__preprocess] is a method, but reads nothing of [self]. *)
Definition preprocess {X} (midi_df_ : DataFrame X) (cycle_len : nat) : M Process ndarray3 :=
  lift (__preprocess midi_df_ cycle_len).

Definition learn (midi_df : loc) : M Process unit :=
  df <~ load midi_df ;;
  _ <~ update_self (set_pitch_range (col_max ((λ r, of_int (pitch r)) <$> df))
                                    (col_min ((λ r, of_int (pitch r)) <$> df))) ;;
  _ <~ store midi_df ((λ r, set_pitch r (pitch r `mod` 12)) <$> df) ;;
  df <~ load midi_df ;;
  c <~ get_self ;;
  observed_arr <~ preprocess df (cycle_len c) ;;
  let rbm := create_rbm (shape observed_arr).2 (hidden_num c) (learning_rate c) in
  rbm <~ draw (rbm_learn rbm observed_arr (epoch c) (batch_size c)) ;;
  inferenced_arr <~ draw (rbm_inference rbm observed_arr 1 (-1)) ;;
  update_self (set_learned (shape observed_arr) midi_df rbm inferenced_arr).

(** [__generate].  [start_arr] and [duration_arr] are views of the columns
    of the table at [midi_df]: each in-place operation on them is an
    update of that table. *)
Definition __generate (midi_df : loc) (octave : Z) : M Process (DataFrame GenCols) :=
  df <~ load midi_df ;;
  let rows := length df in
  noise <~ draw (normal (Fin 0.01) (Fin 0.01) rows) ;;
  let start_arr := zip_with fadd (start <$> df) noise in
  _ <~ store midi_df (zip_with set_start df start_arr) ;;
  df <~ load midi_df ;;
  noise <~ draw (normal (Fin 0.01) (Fin 0.01) rows) ;;
  let duration_arr := zip_with fadd (duration <$> df) noise in
  _ <~ store midi_df (zip_with set_duration df duration_arr) ;;
  df <~ load midi_df ;;
  least <~ lift (np_min (filter (λ d, fgt d (Fin 0)) duration_arr)) ;;
  let duration_arr := (λ d, if flt d (Fin 0) then least else d) <$> duration_arr in
  _ <~ store midi_df (zip_with set_duration df duration_arr) ;;
  df <~ load midi_df ;;
  velocity_arr <~ draw (normal (mean (velocity <$> df)) (std (velocity <$> df)) rows) ;;
  pitch_arr <~ draw (twelve_tone_generate rows octave) ;;
  let pitch_arr := take rows pitch_arr in
  let velocity_arr := astype_int <$> velocity_arr in
  generated_df <~ lift (np_c_ pitch_arr start_arr duration_arr velocity_arr) ;;
  let low := col_min (start <$> generated_df) in
  let generated_df :=
    (λ r, set_start r (fadd (start r) (fmul low (Fin (-1))))) <$> generated_df in
  let generated_df :=
    (λ r, mkRow (pitch r) (start r) (fadd (start r) (duration r)) (duration r)
            (velocity r) (extra r)) <$> generated_df in
  let generated_df := (λ r, set_pitch r (pitch r `mod` 12)) <$> generated_df in
  let generated_df := sort_values generated_df in
  ret (dropna generated_df).


(** The body of the cycle loop of [compose]; [None] in [params_arr] is a
    row that [np.empty] left unfilled. *)
Definition compose_cycle (octave : Z)
    (acc : list (option ndarray3) * list (option (DataFrame GenCols))) (i : nat)
  : M Process (list (option ndarray3) * list (option (DataFrame GenCols))) :=
  let '(params_arr, generated_df_list) := acc in
  midi_df <~ getattr "_RBMAnnealing__midi_df" midi_df ;;
  generated_df <~ __generate midi_df octave ;;
  let generated_df_list := <[i := Some generated_df]> generated_df_list in
  c <~ get_self ;;
  test_arr <~ preprocess generated_df (cycle_len c) ;;
  observed_shape <~ getattr "_RBMAnnealing__observed_shape" observed_shape ;;
  if decide (observed_shape.1.1 < shape0 test_arr)%nat
  then
    params_arr <~ lift (assign_row params_arr i observed_shape
                          (truncate observed_shape.1.1 test_arr)) ;;
    ret (params_arr, generated_df_list)
  else if decide (shape0 test_arr < observed_shape.1.1)%nat
  then ret (params_arr, generated_df_list)
  else
    params_arr <~ lift (assign_row params_arr i observed_shape test_arr) ;;
    ret (params_arr, generated_df_list).

Definition compose (octave : Z) : M Process (DataFrame GenCols) :=
  inferenced_arr <~ getattr "_RBMAnnealing__inferenced_arr" inferenced_arr ;;
  rbm <~ getattr "_RBMAnnealing__rbm" rbm ;;
  c <~ get_self ;;
  let cost_functionable := (inferenced_arr, rbm, batch_size c) in
  _ <~ getattr "_RBMAnnealing__observed_shape" observed_shape ;;
  let params_arr := replicate (annealing_cycles c) None in
  let generated_df_list := replicate (annealing_cycles c) None in
  acc <~ for_each (range 0 (annealing_cycles c)) (compose_cycle octave)
           (params_arr, generated_df_list) ;;
  let '(params_arr, generated_df_list) := acc in
  log <~ draw (annealing cost_functionable params_arr (annealing_cycles c)) ;;
  k <~ lift (optimum_index log) ;;
  opt_df <~ lift (py_getitem generated_df_list k) ;;
  match opt_df with
  | None => raise TypeError
  | Some opt_df =>
      let opt_df := restore_pitch opt_df in
      let generated_df_list :=
        match py_index (length generated_df_list) k with
        | Some i => <[i := Some opt_df]> generated_df_list
        | None => generated_df_list
        end in
      _ <~ update_self (set_composed log generated_df_list) ;;
      ret opt_df
  end.

(** The UNTRAINED state: a composer made by [__init__] on which no call
    of [learn] has returned yet, whatever else has run in between. *)
Inductive untrained : Process → Prop :=
  | untrained_init cycle_len epoch batch_size learning_rate hidden_num annealing_cycles
      heap g :
      untrained (mkProcess (__init__ cycle_len epoch batch_size learning_rate
                              hidden_num annealing_cycles) heap g)
  | untrained_learn_raised p midi_df e p' :
      untrained p → learn midi_df p = (Raise e, p') → untrained p'
  | untrained_compose p octave r p' :
      untrained p → compose octave p = (r, p') → untrained p'
  | untrained_elsewhere p heap g :
      untrained p → untrained (mkProcess (self p) heap g).



Definition get_predicted_log_arr : M Process ndarray2 :=
  getattr "_RBMAnnealing__predicted_log_arr" predicted_log_arr.

Definition get_generated_df_list : M Process (list (option (DataFrame GenCols))) :=
  getattr "_RBMAnnealing__generated_df_list" generated_df_list.

Definition set_readonly {A} (value : A) : M Process unit := raise TypeError.

End composer.

End RBMAnnealing.

(* ================================================================== *)
(** ** A concrete composer *)

(** Collaborators that replay the tape: the RBM is a unit object whose
    inference is the identity, the twelve-tone generator counts up the
    chromatic scale in the requested octave, and the annealing model logs one
    record per cycle, with the cycle number in column 4 and the next number of
    the tape as the score in column 5. *)
Fixpoint tape_scores (n : nat) (g : list Q) : list Q * list Q :=
  match n with
  | O => ([], g)
  | S n' => let '(x, g') := tape_next g in
            let '(l, g'') := tape_scores n' g' in
            (x :: l, g'')
  end.

Definition tape_annealing (cycles : nat) (g : list Q) : RBMAnnealing.ndarray2 * list Q :=
  let '(scores, g') := tape_scores cycles g in
  (RBMAnnealing.mkArr2 (cycles, 6%nat)
     (imap (λ i s, [Fin 0; Fin 0; Fin 0; Fin 0; of_int (Z.of_nat i); Fin s]) scores), g').

#[export] Instance TapeExternal : RBMAnnealing.External (list Q) := {|
  RBMAnnealing.RBM := unit;
  RBMAnnealing.create_rbm := λ _ _ _, ();
  RBMAnnealing.rbm_learn := λ r _ _ _ g, (r, g);
  RBMAnnealing.rbm_inference := λ _ a _ _ g, (a, g);
  RBMAnnealing.annealing := λ _ _ cycles g, tape_annealing cycles g;
  RBMAnnealing.twelve_tone_generate :=
    λ rows octave g, ((λ k, 12 * octave + Z.of_nat k `mod` 12) <$> seq 0 rows, g);
  RBMAnnealing.std := λ _, Fin 1
|}.

(** A table of four notes, held by the caller at address 0. *)
Definition four_note_table : DataFrame Z :=
  [ mkRow 60 (Fin 0) (Fin 0.5) (Fin 0.5) 64 0;
    mkRow 64 (Fin 0.5) (Fin 1) (Fin 0.5) 70 0;
    mkRow 67 (Fin 1) (Fin 2) (Fin 1) 80 0;
    mkRow 72 (Fin 2) (Fin 2.25) (Fin 0.25) 90 0 ].

(** A composer with windows of two notes and three annealing cycles, before
    [learn].  The tape holds zeros for the 36 normal draws of the three cycles
    and then the scores 2, 1, 1 of the annealing log. *)
Definition fresh_process : RBMAnnealing.Process :=
  RBMAnnealing.mkProcess (RBMAnnealing.__init__ 2 1 1 0.00001 1 3)
    {[ 0%nat := four_note_table ]}
    (replicate 36 0%Q ++ [2%Q; 1%Q; 1%Q]).

Definition trained_process : RBMAnnealing.Process :=
  (RBMAnnealing.learn 0%nat fresh_process).2.



(** A table of two notes whose first duration is 0.01, and a tape whose third
    number, the standard normal draw behind the jitter of that duration, is
    -2: the jitter is 0.01 + 0.01 * (-2) = -0.01. *)
Definition short_note_table : DataFrame Z :=
  [ mkRow 60 (Fin 0) (Fin 0.01) (Fin 0.01) 64 0;
    mkRow 64 (Fin 1) (Fin 2) (Fin 1) 70 0 ].

Definition short_note_process : RBMAnnealing.Process :=
  RBMAnnealing.mkProcess (RBMAnnealing.__init__ 1 1 1 0.00001 1 1)
    {[ 0%nat := short_note_table ]}
    [0%Q; 0%Q; (-2)%Q; 0%Q].

(** All finite values of a column agree. *)
Definition constant_column (col : list float64) : Prop :=
  ∀ a b, Fin a ∈ col → Fin b ∈ col → (a == b)%Q.

(** Two rows agree on the columns other than [start] and [duration]. *)
Definition same_other_columns {X} (r r' : Row X) : Prop :=
  pitch r' = pitch r ∧ end_ r' = end_ r ∧ velocity r' = velocity r ∧ extra r' = extra r.

(** Two rows have their missing values in the same columns. *)
Definition same_missing {X} (r r' : Row X) : Prop :=
  isnan (start r') = isnan (start r)
  ∧ isnan (end_ r') = isnan (end_ r)
  ∧ isnan (duration r') = isnan (duration r).

(** The table that the first call of [__generate] on the trained composer
    returns. *)
Definition first_candidate : DataFrame RBMAnnealing.GenCols :=
  Eval vm_compute in
    match (RBMAnnealing.__generate 0%nat 8 trained_process).1 with
    | Ok generated_df => generated_df
    | Raise _ => []
    end.

(** The rows that [__generate] makes: a pitch class with its [origin_pitch],
    a start and a duration that are not negative, the end after them, and no
    [feature_pitch] so far. *)
Definition fresh_rows (generated_df : DataFrame RBMAnnealing.GenCols) : Prop :=
  ∀ r, r ∈ generated_df →
    ∃ pitch0 s d velocity0,
      r = mkRow (pitch0 `mod` 12) (Fin s) (Fin (s + d)) (Fin d) velocity0
            (RBMAnnealing.mkGenCols pitch0 None)
      ∧ (0 <= s)%Q ∧ (0 <= d)%Q.

(** The table that [compose] returns on the trained composer. *)
Definition composed_table : DataFrame RBMAnnealing.GenCols :=
  Eval vm_compute in
    match (RBMAnnealing.compose 8 trained_process).1 with
    | Ok opt_df => opt_df
    | Raise _ => []
    end.

(** A composer over the four-note table that asks for windows of five notes,
    and one that asks for no annealing cycle at all. *)
Definition long_window_process : RBMAnnealing.Process :=
  RBMAnnealing.mkProcess (RBMAnnealing.__init__ 5 1 1 0.00001 1 3)
    {[ 0%nat := four_note_table ]} [].

Definition no_cycle_process : RBMAnnealing.Process :=
  RBMAnnealing.mkProcess (RBMAnnealing.__init__ 2 1 1 0.00001 1 0)
    {[ 0%nat := four_note_table ]} [].

(* ================================================================== *)
(** * Properties *)

(** ** Column minimum and maximum *)

Lemma foldr_Qmin_le (q : Q) (l : list Q) (x : Q) :
  x ∈ q :: l → (foldr Qmin q l <= x)%Q.
Proof.
  induction l as [|y l IH]; simpl; intros Hx.
  - apply list_elem_of_singleton in Hx as ->. apply Qle_refl.
  - rewrite !elem_of_cons in Hx. destruct Hx as [->|[->|Hx]].
    + eapply Qle_trans; [apply Q.le_min_r|]. apply IH. left.
    + apply Q.le_min_l.
    + eapply Qle_trans; [apply Q.le_min_r|]. apply IH. by right.
Qed.

Lemma foldr_Qmax_ge (q : Q) (l : list Q) (x : Q) :
  x ∈ q :: l → (x <= foldr Qmax q l)%Q.
Proof.
  induction l as [|y l IH]; simpl; intros Hx.
  - apply list_elem_of_singleton in Hx as ->. apply Qle_refl.
  - rewrite !elem_of_cons in Hx. destruct Hx as [->|[->|Hx]].
    + eapply Qle_trans; [|apply Q.le_max_r]. apply IH. left.
    + apply Q.le_max_l.
    + eapply Qle_trans; [|apply Q.le_max_r]. apply IH. by right.
Qed.

Lemma finite_vals_elem (col : list float64) (x : Q) :
  x ∈ finite_vals col ↔ Fin x ∈ col.
Proof.
  unfold finite_vals. rewrite list_elem_of_omap. split.
  - intros [[|q] [Hin Heq]]; [done|]. by injection Heq as ->.
  - intros Hin. by exists (Fin x).
Qed.

Lemma col_min_lower (col : list float64) (x : Q) :
  Fin x ∈ col → ∃ lo, col_min col = Fin lo ∧ (lo <= x)%Q.
Proof.
  intros Hin%finite_vals_elem. unfold col_min.
  destruct (finite_vals col) as [|q l] eqn:E; [by apply elem_of_nil in Hin|].
  eexists. split; [done|]. by apply foldr_Qmin_le.
Qed.

Lemma col_max_upper (col : list float64) (x : Q) :
  Fin x ∈ col → ∃ hi, col_max col = Fin hi ∧ (x <= hi)%Q.
Proof.
  intros Hin%finite_vals_elem. unfold col_max.
  destruct (finite_vals col) as [|q l] eqn:E; [by apply elem_of_nil in Hin|].
  eexists. split; [done|]. by apply foldr_Qmax_ge.
Qed.

Lemma foldr_Qmin_attained (q : Q) (l : list Q) :
  ∃ y, y ∈ q :: l ∧ (foldr Qmin q l == y)%Q.
Proof.
  induction l as [|x l (y & Hy & Heq)]; simpl.
  - exists q. split; [left|reflexivity].
  - destruct (Q.min_dec x (foldr Qmin q l)) as [Hx|Hrest].
    + exists x. split; [right; left|done].
    + exists y. split; [|by rewrite Hrest].
      apply elem_of_cons in Hy as [->|Hy]; [left|by right; right].
Qed.

Lemma foldr_Qmax_attained (q : Q) (l : list Q) :
  ∃ y, y ∈ q :: l ∧ (foldr Qmax q l == y)%Q.
Proof.
  induction l as [|x l (y & Hy & Heq)]; simpl.
  - exists q. split; [left|reflexivity].
  - destruct (Q.max_dec x (foldr Qmax q l)) as [Hx|Hrest].
    + exists x. split; [right; left|done].
    + exists y. split; [|by rewrite Hrest].
      apply elem_of_cons in Hy as [->|Hy]; [left|by right; right].
Qed.






(** ** [__preprocess] *)


Lemma length_normalise {X} (df : DataFrame X) : length (normalise df) = length df.
Proof. unfold normalise. by rewrite length_fmap. Qed.



Lemma preprocess_returns {X} (midi_df_ : DataFrame X) (cycle_len : nat) :
  (cycle_len ≤ length (dropna midi_df_))%nat →
  __preprocess midi_df_ cycle_len =
    Ok {| shape := ((length (dropna midi_df_) - cycle_len)%nat, cycle_len, 4%nat);
          data := (λ i, feature_values <$> iloc (i - cycle_len) i (normalise (dropna midi_df_)))
                    <$> range cycle_len (length (dropna midi_df_)) |}.
Proof.
  intros Hle. unfold __preprocess. rewrite length_normalise.
  destruct (decide _) as [Hlt|_]; [lia|done].
Qed.



Lemma preprocess_negative_dimension {X} (midi_df_ : DataFrame X) (cycle_len : nat) :
  (length (dropna midi_df_) < cycle_len)%nat →
  __preprocess midi_df_ cycle_len = Raise ValueError.
Proof.
  intros Hlt. unfold __preprocess. rewrite length_normalise.
  destruct (decide _); [done|lia].
Qed.

(** C7.  A table that keeps fewer than [cycle_len] rows after [dropna] makes
    [__preprocess] raise a [ValueError] (the negative first dimension handed
    to [np.empty]) where an empty result is specified. *)
Theorem preprocess_raises_below_cycle_len {X} (midi_df_ : DataFrame X) (cycle_len : nat) :
  (length (dropna midi_df_) < cycle_len)%nat →
  __preprocess midi_df_ cycle_len = Raise ValueError.
Proof.
  intros Hlt. unfold __preprocess.
  assert (length (normalise (dropna midi_df_)) = length (dropna midi_df_)) as ->
    by apply length_normalise.
  case_decide as Hrows; [reflexivity|]. exfalso. apply Hrows, Hlt.
Qed.

Lemma preprocess_raises_below_cycle_len_witness :
  (length (dropna ([] : DataFrame Z)) < 1)%nat
  ∧ __preprocess ([] : DataFrame Z) 1 = Raise ValueError.
Proof.
  split; [simpl; lia|].
  apply (preprocess_raises_below_cycle_len ([] : DataFrame Z) 1). simpl; lia.
Defined.

(** With exactly [cycle_len] rows left the result is the empty array of shape
    (0, cycle_len, 4). *)
Lemma preprocess_empty_at_cycle_len {X} (midi_df_ : DataFrame X) (cycle_len : nat) :
  length (dropna midi_df_) = cycle_len →
  __preprocess midi_df_ cycle_len = Ok (mkArr3 (0%nat, cycle_len, 4%nat) []).
Proof.
  intros Heq. rewrite preprocess_returns by lia. rewrite Heq.
  unfold range. by rewrite Nat.sub_diag.
Qed.

(** ** Reasoning about effectful code *)

Lemma bind_ok {S A B} (m : M S A) (k : A → M S B) (s s' : S) (b : B) :
  bind m k s = (Ok b, s') ↔ ∃ a s1, m s = (Ok a, s1) ∧ k a s1 = (Ok b, s').
Proof.
  unfold bind. split.
  - destruct (m s) as [[a|e] s1]; [|done]. intros Hk. by exists a, s1.
  - intros (a & s1 & -> & Hk). done.
Qed.

Lemma lift_ok {S A} (r : result A) (s s' : S) (a : A) :
  lift r s = (Ok a, s') ↔ r = Ok a ∧ s' = s.
Proof. unfold lift. split; [by intros [= -> ->]|by intros [-> ->]]. Qed.

Lemma ret_ok {S A} (x : A) (s s' : S) (a : A) :
  ret x s = (Ok a, s') ↔ a = x ∧ s' = s.
Proof. unfold ret. split; [by intros [= -> ->]|by intros [-> ->]]. Qed.

(** A property kept by every pass of a loop holds when the loop returns. *)
Lemma for_each_invariant {S A B} (P : B → Prop) (l : list A) (body : B → A → M S B) :
  (∀ b x s b' s', P b → x ∈ l → body b x s = (Ok b', s') → P b') →
  ∀ acc s r s', P acc → for_each l body acc s = (Ok r, s') → P r.
Proof.
  induction l as [|x l IH]; intros Hbody acc s r s' Hacc; simpl.
  - by intros [-> _]%ret_ok.
  - intros (b & s1 & Hb & Hrest)%bind_ok.
    eapply IH; [|eapply Hbody; [done|left|done]|done].
    intros ?????? Hin ?. eapply Hbody; [done|by right|done].
Qed.

(** ** [BarNoiseSampler] *)

Section bar_noise_sampler.
Import BarNoiseSampler.

Lemma py_index_lt (len : nat) (k : Z) (i : nat) :
  py_index len k = Some i → (i < len)%nat.
Proof.
  unfold py_index. repeat case_decide; intros [= <-]; lia.
Qed.

Lemma mark_pitches_length self df arr v :
  mark_pitches self df arr = Ok v → length v = length arr.
Proof.
  revert arr. induction df as [|r df IH]; intros arr; simpl.
  - by intros [= ->].
  - unfold mark_pitch, py_setitem. case_decide; [|apply IH].
    destruct (py_index _ _) as [i|]; [|done].
    intros ->%IH. apply length_insert.
Qed.

Lemma mark_pitches_binary self df arr v :
  Forall bit arr → mark_pitches self df arr = Ok v → Forall bit v.
Proof.
  revert arr. induction df as [|r df IH]; intros arr Harr; simpl.
  - by intros [= <-].
  - unfold mark_pitch, py_setitem. case_decide; [|by apply IH].
    destruct (py_index _ _) as [i|]; [|done].
    apply IH. apply Forall_insert; [done|by right].
Qed.

Lemma convert_into_feature_vector self df v :
  __convert_into_feature self df = Ok v →
  0 ≤ dim self ∧ length v = Z.to_nat (dim self) ∧ Forall bit v.
Proof.
  unfold __convert_into_feature, np_zeros. case_decide; [done|].
  intros Hv. split; [lia|]. split.
  - apply mark_pitches_length in Hv. by rewrite length_replicate in Hv.
  - eapply mark_pitches_binary; [|done]. apply Forall_replicate. by left.
Qed.

Lemma zeros4_sound b c s d a :
  np_zeros4 b c s d = Ok a → 0 ≤ d ∧ sound (b, c, s, Z.to_nat d) a.
Proof.
  unfold np_zeros4. case_decide; [done|]. intros [= <-].
  split; [lia|]. split; [done|]. split.
  - unfold well_shaped4; simpl. rewrite length_replicate. split; [done|].
    apply Forall_replicate. rewrite length_replicate. split; [done|].
    apply Forall_replicate. rewrite length_replicate. split; [done|].
    apply Forall_replicate. by rewrite length_replicate.
  - unfold binary; simpl. do 4 apply Forall_replicate. by left.
Qed.

Lemma set_bar_sound b c s d a batch i seq v :
  length v = d → Forall bit v → sound (b, c, s, d) a →
  sound (b, c, s, d) (set_bar a batch i seq v).
Proof.
  intros Hlen Hbits (Hsh & Hwf & Hbin). split; [done|]. split.
  - unfold well_shaped4 in *. simpl. rewrite Hsh in *.
    destruct Hwf as [Hb Hall]. rewrite length_alter. split; [done|].
    apply Forall_alter; [done|]. intros x _ [Hc Hx].
    rewrite length_alter. split; [done|].
    apply Forall_alter; [done|]. intros y _ [Hs Hy].
    rewrite length_insert. split; [done|].
    by apply Forall_insert.
  - unfold binary in *. simpl.
    apply Forall_alter; [done|]. intros x _ Hx.
    apply Forall_alter; [done|]. intros y _ Hy.
    by apply Forall_insert.
Qed.

Section with_random_source.
Context `{RandomSource G}.

Lemma generate_channel_sound (self : t) sh batch a i (g g' : G) a' :
  sh.2 = Z.to_nat (dim self) →
  sound sh a → generate_channel self batch a i g = (Ok a', g') → sound sh a'.
Proof.
  destruct sh as [[[b c] s] d]. simpl. intros -> Ha. unfold generate_channel.
  intros (midi_df & g1 & _ & Hrun)%bind_ok.
  case_decide.
  - by apply ret_ok in Hrun as [-> _].
  - apply bind_ok in Hrun as (row & g4 & _ & Hrun).
    eapply for_each_invariant; [|exact Ha|exact Hrun].
    intros arr seq s1 arr' s2 Harr _ (v & s3 & [Hv _]%lift_ok & [-> _]%ret_ok)%bind_ok.
    apply convert_into_feature_vector in Hv as (_ & Hlen & Hbits).
    by apply set_bar_sound.
Qed.

Lemma generate_sound (self : t) (g g' : G) (a : ndarray4) :
  generate self g = (Ok a, g') →
  0 ≤ dim self
  ∧ sound (batch_size self, channel self, seq_len self, Z.to_nat (dim self)) a.
Proof.
  unfold generate.
  intros (a0 & g1 & [Hzeros ->]%lift_ok & Hrun)%bind_ok.
  apply zeros4_sound in Hzeros as [Hdim Ha0]. split; [done|].
  eapply for_each_invariant; [|exact Ha0|exact Hrun].
  intros arr batch s1 arr' s2 Harr _ Hinner.
  eapply for_each_invariant; [|exact Harr|exact Hinner].
  intros arr1 i s3 arr2 s4 Harr1 _ Hbody.
  by eapply generate_channel_sound.
Qed.
End with_random_source.

Lemma elem_of_drop_duplicates (l : list Z) (x : Z) : x ∈ drop_duplicates l ↔ x ∈ l.
Proof.
  unfold drop_duplicates. by rewrite elem_of_reverse, elem_of_remove_dups, elem_of_reverse.
Qed.

Lemma elem_of_collected_programs (dfs : list (DataFrame Z)) (acc : list Z) (p : Z) :
  p ∈ foldl (λ acc df, acc ++ drop_duplicates (extra <$> df)) acc dfs
  ↔ p ∈ acc ∨ ∃ df r, df ∈ dfs ∧ r ∈ df ∧ extra r = p.
Proof.
  revert acc. induction dfs as [|df dfs IH]; intros acc; simpl.
  - split; [by left|]. intros [|(df & r & Hdf%elem_of_nil & _)]; done.
  - rewrite IH, elem_of_app, elem_of_drop_duplicates, list_elem_of_fmap. split.
    + intros [[Hacc|(r & -> & Hr)]|(df' & r & Hdf' & Hr & Hp)].
      * by left.
      * right. exists df, r. split; [left|done].
      * right. exists df', r. split; [by right|done].
    + intros [Hacc|(df' & r & Hdf' & Hr & Hp)]; [by left; left|].
      apply elem_of_cons in Hdf' as [->|Hdf'].
      * left; right. by exists r.
      * right. by exists df', r.
Qed.

Lemma init_program_list midi_df_list batch_size seq_len time_fraction min_pitch max_pitch :
  let self := __init__ midi_df_list batch_size seq_len time_fraction min_pitch max_pitch in
  NoDup (program_list self)
  ∧ get_channel self = length (program_list self)
  ∧ ∀ p, p ∈ program_list self ↔ ∃ df r, df ∈ midi_df_list ∧ r ∈ df ∧ extra r = p.
Proof.
  simpl. unfold list_set. split; [apply NoDup_elements|]. split; [done|].
  intros p. rewrite elem_of_elements, elem_of_list_to_set, elem_of_collected_programs.
  split; [|by right]. by intros [Hnil%elem_of_nil|].
Qed.

Lemma elem_of_select_bar self midi_df row seq r :
  r ∈ select_bar self midi_df row seq
  ↔ r ∈ midi_df ∧ flt (start r) (bar_lo self row seq) ∧ fgt (end_ r) (bar_hi self row seq).
Proof. unfold select_bar. rewrite !list_elem_of_filter. tauto. Qed.

Lemma py_index_in_range (len : nat) (k : Z) :
  - Z.of_nat len ≤ k < Z.of_nat len → is_Some (py_index len k).
Proof. intros Hk. unfold py_index. repeat case_decide; try done; lia. Qed.

Lemma mark_pitches_returns self df arr :
  dim self = max_pitch self - min_pitch self →
  length arr = Z.to_nat (dim self) →
  (∀ r, r ∈ df → pitch r < max_pitch self - 1 →
     2 * min_pitch self - max_pitch self ≤ pitch r) →
  ∃ v, mark_pitches self df arr = Ok v.
Proof.
  intros Hdim. revert arr. induction df as [|r df IH]; intros arr Hlen Hlow; simpl.
  - by eexists.
  - unfold mark_pitch, py_setitem. case_decide as Hp.
    + destruct (py_index_in_range (length arr) (pitch r - min_pitch self)) as [i ->].
      { specialize (Hlow r ltac:(left) Hp). lia. }
      apply IH; [by rewrite length_insert|].
      intros r' Hr'. apply Hlow. by right.
    + apply IH; [done|]. intros r' Hr'. apply Hlow. by right.
Qed.

Lemma convert_into_feature_returns self df :
  dim self = max_pitch self - min_pitch self →
  0 ≤ dim self →
  (∀ r, r ∈ df → pitch r < max_pitch self - 1 →
     2 * min_pitch self - max_pitch self ≤ pitch r) →
  ∃ v, __convert_into_feature self df = Ok v.
Proof.
  intros Hdim Hpos Hlow. unfold __convert_into_feature, np_zeros.
  case_decide; [lia|]. apply mark_pitches_returns; [done| |done].
  by rewrite length_replicate.
Qed.

(** A loop whose passes all return does return. *)
Lemma for_each_returns {S A B} (l : list A) (body : B → A → M S B) :
  (∀ b x s, x ∈ l → ∃ b' s', body b x s = (Ok b', s')) →
  ∀ acc s, ∃ r s', for_each l body acc s = (Ok r, s').
Proof.
  induction l as [|x l IH]; intros Hbody acc s; simpl.
  - by eexists _, _.
  - destruct (Hbody acc x s) as (b' & s' & Hb); [left|].
    unfold bind. rewrite Hb. apply IH. intros b y s1 Hy. apply Hbody. by right.
Qed.

Section returns.
Context `{RandomSource G}.

Lemma draw_table_returns (self : t) (i : nat) (g : G) :
  (i < length (program_list self))%nat →
  (0 < length (midi_df_list self))%nat →
  ∃ program_key df g',
    draw_table self i g = (Ok (filter (λ r, extra r = program_key) df), g')
    ∧ program_list self !! i = Some program_key
    ∧ df ∈ midi_df_list self.
Proof.
  intros Hi Hlist. unfold draw_table, bind, lift, py_getitem, randint, ret.
  destruct (py_index_in_range (length (program_list self)) (Z.of_nat i)) as [k Hk];
    [lia|]. rewrite Hk.
  assert (k = i) as ->.
  { unfold py_index in Hk. repeat case_decide; simplify_eq; lia. }
  destruct (lookup_lt_is_Some_2 (program_list self) i) as [program_key Hkey]; [done|].
  rewrite Hkey.
  case_decide; [lia|].
  destruct (randint_raw _ _ g) as [z g'].
  set (key := 0 + (z - 0) `mod` (Z.of_nat (length (midi_df_list self)) - 0)).
  assert (0 ≤ key < Z.of_nat (length (midi_df_list self))) as Hkey'.
  { unfold key.
    pose proof (Z.mod_pos_bound (z - 0) (Z.of_nat (length (midi_df_list self)) - 0)
                  ltac:(lia)). lia. }
  destruct (py_index_in_range (length (midi_df_list self)) key) as [j Hj]; [lia|].
  rewrite Hj.
  destruct (lookup_lt_is_Some_2 (midi_df_list self) j) as [df Hdf];
    [by eapply py_index_lt|]. rewrite Hdf.
  exists program_key, df, g'. split; [done|]. split; [done|].
  by eapply list_elem_of_lookup_2.
Qed.

(** A table that [draw_table] returns is a table of the sampler restricted
    to the program of the channel. *)
Lemma draw_table_ok (self : t) (i : nat) (g g' : G) (midi_df : DataFrame Z) :
  draw_table self i g = (Ok midi_df, g') →
  ∃ program_key df,
    program_list self !! i = Some program_key
    ∧ df ∈ midi_df_list self
    ∧ midi_df = filter (λ r, extra r = program_key) df.
Proof.
  intros Hrun.
  assert ((i < length (program_list self))%nat ∧ (0 < length (midi_df_list self))%nat)
    as [Hi Hlist].
  { unfold draw_table in Hrun.
    apply bind_ok in Hrun as (program_key & g1 & [Hkey ->]%lift_ok & Hrun).
    apply bind_ok in Hrun as (key & g2 & Hkeyrun & _).
    split.
    - unfold py_getitem in Hkey.
      destruct (py_index _ _) as [k|] eqn:Hk; [|done].
      pose proof (py_index_lt _ _ _ Hk) as Hlt.
      unfold py_index in Hk. repeat case_decide; simplify_eq; lia.
    - unfold randint in Hkeyrun. case_decide; [done|]. lia. }
  destruct (draw_table_returns self i g Hi Hlist) as (program_key & df & g1 & Heq & Hkey & Hdf).
  rewrite Heq in Hrun. injection Hrun as <- <-. by exists program_key, df.
Qed.

Lemma draw_offset_returns (self : t) (midi_df : DataFrame Z) (g : G) :
  (∃ r s, r ∈ midi_df ∧ start r = Fin s) →
  (∃ r e, r ∈ midi_df ∧ end_ r = Fin e) →
  ∃ row g', draw_offset self midi_df g = (Ok (Fin row), g').
Proof.
  intros (r1 & s & Hr1 & Hs) (r2 & e & Hr2 & He).
  destruct (col_min_lower (start <$> midi_df) s) as (lo & Hlo & _).
  { apply list_elem_of_fmap. exists r1. by rewrite Hs. }
  destruct (col_max_upper (end_ <$> midi_df) e) as (hi & Hhi & _).
  { apply list_elem_of_fmap. exists r2. by rewrite He. }
  unfold draw_offset, uniform. rewrite Hlo, Hhi. simpl.
  destruct (uniform_raw _ _ g) as [row g']. by exists row, g'.
Qed.

Lemma draw_offset_finite (self : t) (midi_df : DataFrame Z) (g g' : G) (row : float64) :
  draw_offset self midi_df g = (Ok row, g') → ∃ offset, row = Fin offset.
Proof.
  unfold draw_offset, uniform.
  destruct (col_min _) as [|lo]; [done|].
  destruct (fsub _ _) as [|hi]; [done|].
  destruct (uniform_raw _ _ g) as [x g1]. intros [= <- _]. by exists x.
Qed.

(** [generate] returns whenever the pitch axis is not negative, the index
    [pitch - min_pitch] of every note that can be marked is inside the
    axis, counted from either end, and every table that can be drawn
    with enough rows of a program has a start and an end among them
    that are not missing. *)
Lemma generate_returns (self : t) (g : G) :
  dim self = max_pitch self - min_pitch self →
  0 ≤ dim self →
  (program_list self ≠ [] → midi_df_list self ≠ []) →
  (∀ df r, df ∈ midi_df_list self → r ∈ df → pitch r < max_pitch self - 1 →
     2 * min_pitch self - max_pitch self ≤ pitch r) →
  (∀ df p, df ∈ midi_df_list self → p ∈ program_list self →
     (seq_len self ≤ length (filter (λ r, extra r = p) df))%nat →
     (∃ r s, r ∈ df ∧ extra r = p ∧ start r = Fin s)
     ∧ (∃ r e, r ∈ df ∧ extra r = p ∧ end_ r = Fin e)) →
  ∃ sampled_arr g', generate self g = (Ok sampled_arr, g').
Proof.
  intros Hdim Hpos Hlist Hlow Hfinite. unfold generate, bind at 1, lift, np_zeros4.
  case_decide; [lia|].
  apply for_each_returns. intros arr batch s _.
  apply for_each_returns. intros arr1 i s1 Hi.
  unfold range in Hi. apply elem_of_seq in Hi.
  destruct (draw_table_returns self i s1) as (program_key & df & g1 & Htable & Hkey & Hdf);
    [lia| |].
  { assert (midi_df_list self ≠ []) as Hne.
    { apply Hlist. intros Hnil. rewrite Hnil in Hi. simpl in Hi. lia. }
    destruct (midi_df_list self); [done|simpl; lia]. }
  unfold generate_channel, bind at 1. rewrite Htable.
  case_decide as Hrows; [by eexists _, _|].
  destruct (Hfinite df program_key Hdf) as [(r1 & t1 & Hr1 & Hp1 & Hs) (r2 & e & Hr2 & Hp2 & He)];
    [by eapply list_elem_of_lookup_2|lia|].
  destruct (draw_offset_returns self (filter (λ r, extra r = program_key) df) g1)
    as (row & g2 & Hrow).
  { exists r1, t1. split; [|done]. by apply list_elem_of_filter. }
  { exists r2, e. split; [|done]. by apply list_elem_of_filter. }
  unfold bind at 1. rewrite Hrow.
  apply for_each_returns. intros arr2 seq s2 _.
  destruct (convert_into_feature_returns self
              (select_bar self (filter (λ r, extra r = program_key) df) (Fin row) seq))
    as [v Hv]; [done|done| |].
  { intros r [[_ Hr]%list_elem_of_filter _]%elem_of_select_bar Hp. by eapply Hlow. }
  unfold bind, lift. rewrite Hv. by eexists _, _.
Qed.
End returns.

(** C9.  For a sampler built by [__init__], the channel count is the length
    of a duplicate-free list holding exactly the [program] values of the
    rows of the input tables; whatever a call of [generate] returns, from
    any state of the random source, has shape
    (batch_size, channel, seq_len, max_pitch - min_pitch) and only entries 0
    and 1, so repeated calls agree on the channel count; and the call does
    return when [max_pitch - min_pitch] is not negative, no markable pitch
    lies below [2 * min_pitch - max_pitch], and every table with at least
    [seq_len] rows of a program has among them a start and an end that are
    not missing (otherwise [np.zeros], the index [pitch - min_pitch] or
    [np.random.uniform] raises and there is no output). *)
Theorem generate_binary_of_fixed_shape `{RandomSource G}
    (midi_df_list : list (DataFrame Z)) (batch_size seq_len : nat) (time_fraction : Q)
    (min_pitch max_pitch : Z) (g : G) :
  let self := __init__ midi_df_list batch_size seq_len time_fraction min_pitch max_pitch in
  (NoDup (get_program_list self)
   ∧ get_channel self = length (get_program_list self)
   ∧ ∀ p, p ∈ get_program_list self ↔ ∃ df r, df ∈ midi_df_list ∧ r ∈ df ∧ extra r = p)
  ∧ (∀ sampled_arr g', generate self g = (Ok sampled_arr, g') →
       0 ≤ max_pitch - min_pitch
       ∧ shape4 sampled_arr
         = (batch_size, get_channel self, seq_len, Z.to_nat (max_pitch - min_pitch))
       ∧ well_shaped4 sampled_arr
       ∧ binary sampled_arr)
  ∧ (0 ≤ max_pitch - min_pitch →
     (∀ df r, df ∈ midi_df_list → r ∈ df → pitch r < max_pitch - 1 →
        2 * min_pitch - max_pitch ≤ pitch r) →
     (∀ df p, df ∈ midi_df_list → p ∈ get_program_list self →
        (seq_len ≤ length (filter (λ r, extra r = p) df))%nat →
        (∃ r s, r ∈ df ∧ extra r = p ∧ start r = Fin s)
        ∧ (∃ r e, r ∈ df ∧ extra r = p ∧ end_ r = Fin e)) →
     ∃ sampled_arr g', generate self g = (Ok sampled_arr, g')).
Proof.
  intros self. split; [apply init_program_list|]. split.
  - intros sampled_arr g' Hgen.
    apply generate_sound in Hgen as (Hdim & Hsh & Hwf & Hbin). done.
  - intros Hdim Hlow Hfinite. apply generate_returns; try done.
    intros Hne Hnil. apply Hne.
    destruct (program_list self) as [|p l] eqn:Hp; [done|]. exfalso.
    destruct (init_program_list midi_df_list batch_size seq_len time_fraction
                min_pitch max_pitch) as (_ & _ & Hmem).
    destruct (proj1 (Hmem p)) as (df & r & Hdf & _).
    { fold self. rewrite Hp. left. }
    change (BarNoiseSampler.midi_df_list self) with midi_df_list in Hnil.
    rewrite Hnil in Hdf. by apply elem_of_nil in Hdf.
Qed.
End bar_noise_sampler.
(** ** Loops over [range(0, n)] *)

(** An invariant indexed by the number of passes made. *)
Lemma for_each_seq_invariant {S B} (Inv : nat → B → Prop) (body : B → nat → M S B)
    (n : nat) :
  (∀ k b s b' s', (k < n)%nat → Inv k b → body b k s = (Ok b', s') → Inv (Datatypes.S k) b') →
  ∀ acc s r s', Inv 0%nat acc → for_each (range 0 n) body acc s = (Ok r, s') → Inv n r.
Proof.
  intros Hbody. unfold range. rewrite Nat.sub_0_r.
  assert (∀ len m acc s r s', (m + len = n)%nat → Inv m acc →
            for_each (seq m len) body acc s = (Ok r, s') → Inv n r) as Hgen.
  { induction len as [|len IH]; intros m acc s r s' Hm Hacc; simpl.
    - intros [-> _]%ret_ok. by replace n with m by lia.
    - intros (b & s1 & Hb & Hrest)%bind_ok.
      eapply (IH (Datatypes.S m)); [lia| |exact Hrest].
      eapply Hbody; [lia|exact Hacc|exact Hb]. }
  intros acc s r s' Hacc Hrun. eapply (Hgen n 0%nat); [lia|done|done].
Qed.

(** An invariant on the accumulator and on the state. *)
Lemma for_each_seq_state_invariant {S B} (Inv : nat → B → S → Prop)
    (body : B → nat → M S B) (n : nat) :
  (∀ k b s b' s', (k < n)%nat → Inv k b s → body b k s = (Ok b', s') →
     Inv (Datatypes.S k) b' s') →
  ∀ acc s r s', Inv 0%nat acc s → for_each (range 0 n) body acc s = (Ok r, s') → Inv n r s'.
Proof.
  intros Hbody. unfold range. rewrite Nat.sub_0_r.
  assert (∀ len m acc s r s', (m + len = n)%nat → Inv m acc s →
            for_each (seq m len) body acc s = (Ok r, s') → Inv n r s') as Hgen.
  { induction len as [|len IH]; intros m acc s r s' Hm Hacc; simpl.
    - intros [-> ->]%ret_ok. by replace n with m by lia.
    - intros (b & s1 & Hb & Hrest)%bind_ok.
      eapply (IH (Datatypes.S m)); [lia| |exact Hrest].
      eapply Hbody; [lia|exact Hacc|exact Hb]. }
  intros acc s r s' Hacc Hrun. eapply (Hgen n 0%nat); [lia|done|done].
Qed.

(** Two loops that run side by side from the same state: when every pass of
    the first is matched by a pass of the second that reaches the same state,
    the second loop returns where the first does. *)
Lemma for_each_seq_coupled {S B C} (R : nat → B → C → Prop)
    (body1 : B → nat → M S B) (body2 : C → nat → M S C) (n : nat) :
  (∀ k b c s b' s', (k < n)%nat → R k b c → body1 b k s = (Ok b', s') →
     ∃ c', body2 c k s = (Ok c', s') ∧ R (Datatypes.S k) b' c') →
  ∀ b c s b' s', R 0%nat b c → for_each (range 0 n) body1 b s = (Ok b', s') →
    ∃ c', for_each (range 0 n) body2 c s = (Ok c', s') ∧ R n b' c'.
Proof.
  intros Hbody. unfold range. rewrite Nat.sub_0_r.
  assert (∀ len m b c s b' s', (m + len = n)%nat → R m b c →
            for_each (seq m len) body1 b s = (Ok b', s') →
            ∃ c', for_each (seq m len) body2 c s = (Ok c', s') ∧ R n b' c') as Hgen.
  { induction len as [|len IH]; intros m b c s b' s' Hm Hrel; simpl.
    - intros [-> ->]%ret_ok. exists c. split; [done|]. by replace n with m by lia.
    - intros (b1 & s1 & Hb & Hrest)%bind_ok.
      destruct (Hbody m b c s b1 s1) as (c1 & Hc & Hrel1); [lia|done|done|].
      destruct (IH (Datatypes.S m) b1 c1 s1 b' s') as (c' & Hc' & Hrel'); [lia|done|done|].
      exists c'. split; [|done]. apply bind_ok. by exists c1, s1. }
  intros b c s b' s' Hrel Hrun. eapply (Hgen n 0%nat); [lia|done|done].
Qed.

Section bar_bits.
Import BarNoiseSampler.

Lemma chan_set_bar a batch i seq v b' i' :
  chan (set_bar a batch i seq v) b' i'
  = if decide (b' = batch ∧ i' = i) then <[seq := v]> <$> chan a b' i' else chan a b' i'.
Proof.
  unfold chan, set_bar; simpl.
  destruct (decide (b' = batch)) as [->|Hb].
  - rewrite list_lookup_alter_eq. destruct (data4 a !! batch) as [x|]; simpl.
    + destruct (decide (i' = i)) as [->|Hi].
      * rewrite list_lookup_alter_eq. by rewrite decide_True.
      * rewrite list_lookup_alter_ne by done. rewrite decide_False; [done|tauto].
    + by case_decide.
  - rewrite list_lookup_alter_ne by done. rewrite decide_False; [done|tauto].
Qed.

Lemma mark_pitches_bits self df arr v :
  mark_pitches self df arr = Ok v →
  ∀ j, v !! j = Some 1%Q ↔
    arr !! j = Some 1%Q
    ∨ ∃ r, r ∈ df ∧ pitch r < max_pitch self - 1
           ∧ py_index (length arr) (pitch r - min_pitch self) = Some j.
Proof.
  revert arr. induction df as [|r df IH]; intros arr; simpl.
  - intros [= <-] j. split; [by left|]. by intros [|(r & Hr%elem_of_nil & _)].
  - unfold mark_pitch, py_setitem. case_decide as Hp.
    + destruct (py_index _ _) as [i|] eqn:Hi; [|done].
      intros Hv j. rewrite (IH _ Hv j), length_insert, list_lookup_insert_Some.
      pose proof (py_index_lt _ _ _ Hi) as Hlt. split.
      * intros [[(-> & _ & _)|[_ Harr]]|(r' & Hr' & Hp' & Hj)].
        -- right. exists r. split; [left|done].
        -- by left.
        -- right. exists r'. split; [by right|done].
      * intros [Harr|(r' & Hr' & Hp' & Hj)].
        -- destruct (decide (i = j)) as [->|]; left; [left|right]; done.
        -- apply elem_of_cons in Hr' as [->|Hr'].
           ++ left; left. split; [congruence|]. split; [done|]. congruence.
           ++ right. by exists r'.
    + intros Hv j. rewrite (IH _ Hv j). split.
      * intros [|(r' & Hr' & Hrest)]; [by left|]. right. exists r'. split; [by right|done].
      * intros [|(r' & Hr' & Hp' & Hj)]; [by left|].
        apply elem_of_cons in Hr' as [->|Hr']; [done|]. right. by exists r'.
Qed.

Lemma convert_into_feature_bits self df v :
  __convert_into_feature self df = Ok v →
  ∀ j, v !! j = Some 1%Q ↔
    ∃ r, r ∈ df ∧ pitch r < max_pitch self - 1
         ∧ py_index (Z.to_nat (dim self)) (pitch r - min_pitch self) = Some j.
Proof.
  unfold __convert_into_feature, np_zeros. case_decide; [done|].
  intros Hv j. rewrite (mark_pitches_bits _ _ _ _ Hv j), length_replicate.
  split; [|by right]. intros [[? _]%lookup_replicate|]; done.
Qed.

(** The comparisons of the two row selections, on numbers. *)
Lemma flt_lt (x y : float64) :
  flt x y ↔ ∃ a b, x = Fin a ∧ y = Fin b ∧ (a < b)%Q.
Proof.
  destruct x as [|a], y as [|b]; simpl;
    try (split; [done|by intros (? & ? & ? & ? & _)]).
  unfold Qltb. split.
  - intros Hlt. exists a, b. split; [done|]. split; [done|].
    apply Qnot_le_lt. intros Hle%Qle_bool_iff. rewrite Hle in Hlt. done.
  - intros (a' & b' & [= <-] & [= <-] & Hlt).
    destruct (Qle_bool b a) eqn:Hle; [|done].
    apply Qle_bool_iff in Hle. exfalso. by eapply Qlt_not_le.
Qed.

(** The notes that [select_bar] keeps, with the bounds of the bar written
    out. *)
Lemma elem_of_select_bar_bounds self midi_df (offset : Q) seq r :
  r ∈ select_bar self midi_df (Fin offset) seq
  ↔ r ∈ midi_df
    ∧ ∃ s e, start r = Fin s ∧ end_ r = Fin e
        ∧ (s < offset + inject_Z (Z.of_nat seq) * time_fraction self)%Q
        ∧ (offset + inject_Z (Z.of_nat (seq + 1)) * time_fraction self < e)%Q.
Proof.
  rewrite elem_of_select_bar. unfold fgt. rewrite !flt_lt.
  unfold bar_lo, bar_hi. simpl. split.
  - intros (Hr & (s & lo & Hs & [= <-] & Hlo) & (hi & e & [= <-] & He & Hhi)).
    split; [done|]. by exists s, e.
  - intros (Hr & s & e & Hs & He & Hlo & Hhi).
    split; [done|]. split; [by eexists _, _|by eexists _, _].
Qed.

Section with_random_source.
Context `{RandomSource G}.

Lemma channel_draws_ok (self : t) (i : nat) (g g' : G) d :
  channel_draws self i g = (Ok d, g') → drawn_for self i d.
Proof.
  unfold channel_draws.
  intros (midi_df & g1 & Htable & Hrun)%bind_ok.
  apply draw_table_ok in Htable as (program_key & df & Hkey & Hdf & ->).
  case_decide.
  - apply ret_ok in Hrun as [-> _]. split; [by exists program_key, df|done].
  - apply bind_ok in Hrun as (row & g2 & Hrow & [-> _]%ret_ok).
    split; [by exists program_key, df|]. simpl. intros row' [= <-].
    by eapply draw_offset_finite.
Qed.

(** One pass of the loop over the channels makes the draws of
    [channel_draws], fills [sampled_arr[batch, i]] from them and writes
    nothing else. *)
Lemma generate_channel_fills (self : t) batch (a : ndarray4) i (g g' : G) a' :
  chan a batch i = Some (replicate (seq_len self) (replicate (Z.to_nat (dim self)) 0%Q)) →
  generate_channel self batch a i g = (Ok a', g') →
  ∃ d, channel_draws self i g = (Ok d, g')
       ∧ (∀ b' i', ¬ (b' = batch ∧ i' = i) → chan a' b' i' = chan a b' i')
       ∧ ∃ content, chan a' batch i = Some content ∧ slot_content self d content.
Proof.
  intros Hzero. unfold generate_channel, channel_draws.
  intros (midi_df & g1 & Htable & Hrun)%bind_ok.
  unfold bind at 1. rewrite Htable.
  case_decide as Hrows.
  - apply ret_ok in Hrun as [-> ->]. exists (midi_df, None).
    split; [done|]. split; [done|]. eexists. split; [done|]. by split.
  - apply bind_ok in Hrun as (row & g2 & Hrow & Hrun).
    unfold bind at 1. rewrite Hrow. exists (midi_df, Some row).
    pose (Inv := λ (k : nat) (arr : ndarray4) (s : G),
      s = g2
      ∧ (∀ b' i', ¬ (b' = batch ∧ i' = i) → chan arr b' i' = chan a b' i')
      ∧ ∃ content, chan arr batch i = Some content
          ∧ length content = seq_len self
          ∧ ∀ seq v, (seq < k)%nat → content !! seq = Some v →
              __convert_into_feature self (select_bar self midi_df row seq) = Ok v).
    assert (Inv (seq_len self) a' g') as (-> & Hframe & content & Hc & Hlen & Hbars).
    { eapply (for_each_seq_state_invariant Inv); [| |exact Hrun].
      - intros k arr s arr' s' Hk (-> & Hfr & content & Hc & Hlen & Hbars).
        intros (v & s1 & [Hv ->]%lift_ok & [-> ->]%ret_ok)%bind_ok.
        split; [done|]. split.
        + intros b' i' Hne. rewrite chan_set_bar, decide_False by done. by apply Hfr.
        + exists (<[k := v]> content). rewrite chan_set_bar, decide_True, Hc by done.
          split; [done|]. rewrite length_insert. split; [done|].
          intros seq v' Hseq [(-> & -> & _)|[Hne Hlook]]%list_lookup_insert_Some; [done|].
          apply Hbars; [lia|done].
      - split; [done|]. split; [done|]. eexists. split; [done|].
        rewrite length_replicate. split; [done|]. intros; lia. }
    split; [done|]. split; [done|]. exists content. split; [done|].
    split; [simpl; lia|]. split; [done|].
    intros seq v Hv. simpl. apply Hbars; [|done]. rewrite <- Hlen. by eapply lookup_lt_Some.
Qed.

(** A call of [generate] that returns has made the draws of
    [generate_draws], and every channel of every batch slot of its output
    is what the draws of that slot and channel determine. *)
Lemma generate_channels (self : t) (g g' : G) (out : ndarray4) :
  channel self = length (program_list self) →
  generate self g = (Ok out, g') →
  ∃ draws,
    generate_draws self g = (Ok draws, g')
    ∧ ∀ batch i, (batch < batch_size self)%nat → (i < channel self)%nat →
        ∃ d content,
          draws !! batch ≫= (.!! i) = Some d
          ∧ drawn_for self i d
          ∧ chan out batch i = Some content
          ∧ slot_content self d content.
Proof.
  intros Hchan. unfold generate, generate_draws.
  intros (a0 & g1 & [Hzeros ->]%lift_ok & Hrun)%bind_ok.
  set (zeros := replicate (seq_len self) (replicate (Z.to_nat (dim self)) 0%Q)).
  assert (∀ b i, (b < batch_size self)%nat → (i < channel self)%nat →
            chan a0 b i = Some zeros) as Ha0.
  { unfold np_zeros4 in Hzeros. case_decide; [done|]. injection Hzeros as <-.
    intros b i Hb Hi. unfold chan; simpl.
    rewrite lookup_replicate_2 by done. simpl. by rewrite lookup_replicate_2. }
  pose (filled := λ (arr : ndarray4) (b i : nat) (d : DataFrame Z * option float64),
    drawn_for self i d
    ∧ ∃ content, chan arr b i = Some content ∧ slot_content self d content).
  pose (Outer := λ (k : nat) (arr : ndarray4)
                   (draws : list (list (DataFrame Z * option float64))),
    length draws = k
    ∧ ∀ b i, (b < batch_size self)%nat → (i < channel self)%nat →
        if decide (b < k)%nat
        then ∃ d, draws !! b ≫= (.!! i) = Some d ∧ filled arr b i d
        else chan arr b i = Some zeros).
  destruct (for_each_seq_coupled Outer
              (λ arr batch, for_each (range 0 (length (program_list self)))
                              (generate_channel self batch) arr)
              (λ draws batch,
                 slot <~ for_each (range 0 (length (program_list self)))
                           (λ slot i, d <~ channel_draws self i ;; ret (slot ++ [d]))
                           [] ;;
                 ret (draws ++ [slot]))
              (batch_size self)) with (b := a0) (c := @nil (list (DataFrame Z * option float64)))
              (s := g) (b' := out) (s' := g')
    as (draws & Hdraws & Hlen & Hout); [| |exact Hrun|].
  - intros batch arr draws s arr' s' Hbatch [Hlen Harr] Hinner.
    pose (Inner := λ (k : nat) (arr1 : ndarray4) (slot : list (DataFrame Z * option float64)),
      length slot = k
      ∧ ∀ b i, (b < batch_size self)%nat → (i < channel self)%nat →
          if decide (b < batch)%nat then chan arr1 b i = chan arr b i
          else if decide (b = batch ∧ i < k)%nat
          then ∃ d, slot !! i = Some d ∧ filled arr1 b i d
          else chan arr1 b i = Some zeros).
    destruct (for_each_seq_coupled Inner (generate_channel self batch)
                (λ slot i, d <~ channel_draws self i ;; ret (slot ++ [d]))
                (length (program_list self)))
      with (b := arr) (c := @nil (DataFrame Z * option float64))
           (s := s) (b' := arr') (s' := s')
      as (slot & Hslot & Hslen & Hin); [| |exact Hinner|].
    + intros i arr1 slot s1 arr2 s2 Hi [Hslen Harr1] Hbody.
      pose proof (Harr1 batch i Hbatch ltac:(lia)) as Hzero.
      rewrite decide_False in Hzero by lia. rewrite decide_False in Hzero by lia.
      destruct (generate_channel_fills _ _ _ _ _ _ _ Hzero Hbody)
        as (d & Hd & Hframe & content & Hc & Hcontent).
      exists (slot ++ [d]). split.
      { apply bind_ok. exists d, s2. split; [done|]. done. }
      split; [rewrite length_app; simpl; lia|].
      intros b i' Hb Hi'. specialize (Harr1 b i' Hb Hi').
      destruct (decide (b = batch ∧ i' = i)) as [[-> ->]|Hne].
      * rewrite decide_False by lia. rewrite decide_True by lia.
        exists d. split.
        { rewrite lookup_app_r by lia. by rewrite Hslen, Nat.sub_diag. }
        split; [by eapply channel_draws_ok|]. by exists content.
      * rewrite (Hframe b i' Hne).
        destruct (decide (b < batch)%nat); [done|].
        destruct (decide (b = batch ∧ i' < i)%nat) as [[-> Hlt]|Hge].
        -- rewrite decide_True by lia.
           destruct Harr1 as (d' & Hd' & Hdrawn & content' & Hc' & Hcontent').
           exists d'. split.
           { rewrite lookup_app_l by lia. done. }
           split; [done|]. exists content'. by rewrite (Hframe batch i' Hne).
        -- rewrite decide_False by lia. done.
    + split; [done|]. intros b i Hb Hi. specialize (Harr b i Hb Hi).
      destruct (decide (b < batch)%nat); [done|].
      rewrite decide_False by lia. done.
    + exists (draws ++ [slot]). split.
      { apply bind_ok. exists slot, s'. split; [done|]. done. }
      split; [rewrite length_app; simpl; lia|].
      intros b i Hb Hi. specialize (Hin b i Hb Hi). specialize (Harr b i Hb Hi).
      destruct (decide (b < batch)%nat) as [Hlt|Hge].
      * rewrite decide_True by lia.
        destruct Harr as (d & Hd & Hdrawn & content & Hc & Hcontent).
        exists d. split.
        { rewrite lookup_app_l by lia. done. }
        split; [done|]. exists content. by rewrite Hin.
      * destruct (decide (b = batch)) as [->|Hne].
        -- rewrite decide_True by lia. rewrite decide_True in Hin by lia.
           destruct Hin as (d & Hd & Hfilled). exists d. split; [|done].
           rewrite lookup_app_r by lia. rewrite Hlen, Nat.sub_diag. done.
        -- rewrite decide_False by lia. rewrite decide_False in Hin by lia. done.
  - split; [done|]. intros b i Hb Hi. rewrite decide_False by lia. by apply Ha0.
  - exists draws. split; [done|]. intros batch i Hb Hi.
    specialize (Hout batch i Hb Hi). rewrite decide_True in Hout by done.
    destruct Hout as (d & Hd & Hdrawn & content & Hc & Hcontent).
    by exists d, content.
Qed.
End with_random_source.

Lemma py_index_nonneg (len : nat) (k : Z) (j : nat) :
  0 ≤ k < Z.of_nat len → py_index len k = Some j ↔ Z.of_nat j = k.
Proof.
  intros Hk. unfold py_index. rewrite decide_True by done. split.
  - intros [= <-]. lia.
  - intros <-. by rewrite Nat2Z.id.
Qed.

(** C2, as the code has it.  A call of [generate] that returns has drawn, for
    every batch slot and channel, one table (a table of the sampler
    restricted to the program of the channel) and, when that table has at
    least [seq_len] rows, one offset; these are the draws of the call, in
    the order of its loops.  With fewer rows every bar of the channel is
    zero.  Otherwise bit [j] of the bar at position [seq] is set exactly
    when the table holds a note that starts before the bar and ends after
    it, the bar being the [seq]-th interval of width [time_fraction] from
    the offset, with pitch below [max_pitch - 1] and
    [j = pitch - min_pitch].  This is for tables that hold no pitch below
    [min_pitch]. *)
Theorem generate_bar_bits `{RandomSource G}
    (midi_df_list : list (DataFrame Z)) (batch_size seq_len : nat) (time_fraction : Q)
    (min_pitch max_pitch : Z) (g g' : G) (sampled_arr : ndarray4) :
  let self := __init__ midi_df_list batch_size seq_len time_fraction min_pitch max_pitch in
  (∀ df r, df ∈ midi_df_list → r ∈ df → min_pitch ≤ pitch r) →
  generate self g = (Ok sampled_arr, g') →
  ∃ draws,
    generate_draws self g = (Ok draws, g')
    ∧ ∀ batch i, (batch < batch_size)%nat → (i < get_channel self)%nat →
        ∃ program_key df midi_df offset,
          draws !! batch ≫= (.!! i) = Some (midi_df, offset)
          ∧ get_program_list self !! i = Some program_key
          ∧ df ∈ midi_df_list
          ∧ midi_df = filter (λ r, extra r = program_key) df
          ∧ match offset with
            | None =>
                (length midi_df < seq_len)%nat
                ∧ ∀ seq, (seq < seq_len)%nat →
                    ∃ v, bar sampled_arr batch i seq = Some v
                         ∧ ∀ j, v !! j ≠ Some 1%Q
            | Some row =>
                (seq_len ≤ length midi_df)%nat
                ∧ ∃ o, row = Fin o
                  ∧ ∀ seq, (seq < seq_len)%nat →
                      ∃ v, bar sampled_arr batch i seq = Some v
                           ∧ ∀ j, v !! j = Some 1%Q ↔
                               ∃ r s e,
                                 r ∈ midi_df
                                 ∧ start r = Fin s
                                 ∧ end_ r = Fin e
                                 ∧ (s < o + inject_Z (Z.of_nat seq) * time_fraction)%Q
                                 ∧ (o + inject_Z (Z.of_nat (seq + 1)) * time_fraction < e)%Q
                                 ∧ pitch r < max_pitch - 1
                                 ∧ Z.of_nat j = pitch r - min_pitch
            end.
Proof.
  intros self Hlow Hgen.
  destruct (generate_channels self g g' sampled_arr eq_refl Hgen) as (draws & Hdraws & Hall).
  exists draws. split; [done|]. intros batch i Hbatch Hi.
  destruct (Hall batch i Hbatch Hi)
    as ([midi_df offset] & content & Hd & [(program_key & df & Hkey & Hdf & Hmidi) Hrow]
        & Hc & Hcontent).
  simpl in Hmidi, Hrow. exists program_key, df, midi_df, offset.
  split; [done|]. split; [done|]. split; [done|]. split; [done|].
  unfold slot_content in Hcontent. simpl in Hcontent.
  destruct offset as [row|].
  - destruct Hcontent as (Hrows & Hlen & Hbars). split; [done|].
    destruct (Hrow row eq_refl) as [o ->]. exists o. split; [done|].
    intros seq Hseq.
    destruct (lookup_lt_is_Some_2 content seq) as [v Hv].
    { rewrite Hlen. done. }
    exists v. split; [unfold bar; by rewrite Hc|]. intros j.
    rewrite (convert_into_feature_bits _ _ _ (Hbars _ _ Hv) j). split.
    + intros (r & (Hr & s & e & Hs & He & Hlo & Hhi)%elem_of_select_bar_bounds & Hp & Hj).
      exists r, s, e. repeat (split; [done|]).
      eapply py_index_nonneg; [|exact Hj].
      assert (min_pitch ≤ pitch r) as Hge.
      { apply (Hlow df); [done|]. rewrite Hmidi in Hr.
        by apply list_elem_of_filter in Hr as [_ Hr]. }
      simpl in *. lia.
    + intros (r & s & e & Hr & Hs & He & Hlo & Hhi & Hp & Hj).
      exists r. split; [apply elem_of_select_bar_bounds; split; [done|by exists s, e]|].
      split; [done|]. apply py_index_nonneg; [|done]. simpl in *. lia.
  - destruct Hcontent as [Hrows ->]. split; [done|]. intros seq Hseq.
    exists (replicate (Z.to_nat (dim self)) 0%Q). split.
    + unfold bar. rewrite Hc. simpl. by apply lookup_replicate_2.
    + by intros j [? _]%lookup_replicate.
Qed.

Lemma generate_bar_bits_witness :
  (∀ df r, df ∈ [three_note_table] → r ∈ df → 24 ≤ pitch r)
  ∧ generate two_bar_sampler two_bar_tape = (Ok two_bar_output, [])
  ∧ ∃ draws,
      generate_draws two_bar_sampler two_bar_tape = (Ok draws, [])
      ∧ ∀ batch i, (batch < 2)%nat → (i < get_channel two_bar_sampler)%nat →
          ∃ program_key df midi_df offset,
            draws !! batch ≫= (.!! i) = Some (midi_df, offset)
            ∧ get_program_list two_bar_sampler !! i = Some program_key
            ∧ df ∈ [three_note_table]
            ∧ midi_df = filter (λ r, extra r = program_key) df
            ∧ match offset with
              | None =>
                  (length midi_df < 2)%nat
                  ∧ ∀ seq, (seq < 2)%nat →
                      ∃ v, bar two_bar_output batch i seq = Some v
                           ∧ ∀ j, v !! j ≠ Some 1%Q
              | Some row =>
                  (2 ≤ length midi_df)%nat
                  ∧ ∃ o, row = Fin o
                    ∧ ∀ seq, (seq < 2)%nat →
                        ∃ v, bar two_bar_output batch i seq = Some v
                             ∧ ∀ j, v !! j = Some 1%Q ↔
                                 ∃ r s e,
                                   r ∈ midi_df
                                   ∧ start r = Fin s
                                   ∧ end_ r = Fin e
                                   ∧ (s < o + inject_Z (Z.of_nat seq) * 0.1)%Q
                                   ∧ (o + inject_Z (Z.of_nat (seq + 1)) * 0.1 < e)%Q
                                   ∧ pitch r < 108 - 1
                                   ∧ Z.of_nat j = pitch r - 24
              end.
Proof.
  assert (∀ df r, df ∈ [three_note_table] → r ∈ df → 24 ≤ pitch r) as Hlow.
  { intros df r ->%list_elem_of_singleton Hr. unfold three_note_table in Hr.
    repeat (apply elem_of_cons in Hr as [->|Hr]; [simpl; lia|]).
    by apply elem_of_nil in Hr. }
  assert (generate two_bar_sampler two_bar_tape = (Ok two_bar_output, []))
    as Hrun by (vm_compute; reflexivity).
  split; [exact Hlow|]. split; [exact Hrun|].
  exact (generate_bar_bits [three_note_table] 2 2 0.1 24 108 two_bar_tape []
           two_bar_output Hlow Hrun).
Defined.

Lemma generate_binary_of_fixed_shape_witness :
  (∃ sampled_arr g', generate two_note_sampler two_note_tape = (Ok sampled_arr, g'))
  ∧ generate two_note_sampler two_note_tape = (Ok two_note_output, [])
  ∧ shape4 two_note_output = (1, 1, 1, 84)%nat
  ∧ binary two_note_output.
Proof.
  assert (generate two_note_sampler two_note_tape = (Ok two_note_output, []))
    as Hrun by (vm_compute; reflexivity).
  destruct (generate_binary_of_fixed_shape [two_note_table] 1 1 0.1 24 108 two_note_tape)
    as (_ & Hsound & Hreturns).
  split; [|split; [exact Hrun|]].
  - apply Hreturns.
    + lia.
    + intros df r ->%list_elem_of_singleton Hr _. unfold two_note_table in Hr.
      repeat (apply elem_of_cons in Hr as [->|Hr]; [simpl; lia|]).
      by apply elem_of_nil in Hr.
    + intros df p ->%list_elem_of_singleton Hp _.
      assert (p = 0) as ->.
      { vm_compute in Hp. apply list_elem_of_singleton in Hp. exact Hp. }
      split; exists (mkRow 50 (Fin 0) (Fin 1) (Fin 1) 64 0); eexists;
        (split; [left|split; reflexivity]).
  - destruct (Hsound two_note_output [] Hrun) as (_ & Hsh & _ & Hbin).
    split; [exact Hsh|exact Hbin].
Defined.

(** C2, as the specification words it, fails on the two-note table: the short
    note of pitch 60 lies inside the bar from 0.4 to 0.5, but bit 36 of the
    bar is 0. *)
Lemma two_note_bar_contradicts_spec :
  generate two_note_sampler two_note_tape = (Ok two_note_output, [])
  ∧ draw_table two_note_sampler 0 two_note_tape = (Ok two_note_table, [0.4%Q])
  ∧ draw_offset two_note_sampler two_note_table [0.4%Q] = (Ok (Fin 0.4), [])
  ∧ ∃ v, bar two_note_output 0 0 0 = Some v
         ∧ ¬ spec_bar_bits two_note_sampler two_note_table (Fin 0.4) 0 v.
Proof.
  split; [vm_compute; reflexivity|].
  split; [vm_compute; reflexivity|].
  split; [vm_compute; reflexivity|].
  eexists. split; [vm_compute; reflexivity|].
  intros Hspec. specialize (Hspec 36%nat).
  assert (∃ r, r ∈ two_note_table
            ∧ spec_fully_inside (bar_lo two_note_sampler (Fin 0.4) 0)
                (bar_hi two_note_sampler (Fin 0.4) 0) r
            ∧ pitch r < max_pitch two_note_sampler - 1
            ∧ Z.of_nat 36 = pitch r - min_pitch two_note_sampler) as Hnote.
  { exists (mkRow 60 (Fin 0.42) (Fin 0.48) (Fin 0.06) 64 0).
    split; [right; left|]. split; [|split; vm_compute; done].
    vm_compute. split; discriminate. }
  apply Hspec in Hnote. vm_compute in Hnote. discriminate.
Qed.
End bar_bits.

(** ** [RBMAnnealing] *)

Section composer.
Import RBMAnnealing.
Context `{RandomSource G} `{External G}.

Lemma compose_without_inference (p : Process) (octave : Z) :
  inferenced_arr (self p) = None →
  compose octave p = (Raise (AttributeError "_RBMAnnealing__inferenced_arr"), p).
Proof. intros Hnone. unfold compose, bind, getattr. by rewrite Hnone. Qed.

(** What [learn] does to the program state, whether it returns or raises. *)
Lemma learn_effect (midi_df : loc) (p p' : Process) (r : result ()) :
  learn midi_df p = (r, p') →
  let df := heap p !!! midi_df in
  heap p' = <[midi_df := (λ row, set_pitch row (pitch row `mod` 12)) <$> df]> (heap p)
  ∧ max_pitch (self p') = Some (col_max ((λ row, of_int (pitch row)) <$> df))
  ∧ min_pitch (self p') = Some (col_min ((λ row, of_int (pitch row)) <$> df))
  ∧ match r with
    | Ok _ => RBMAnnealing.midi_df (self p') = Some midi_df
              ∧ is_Some (inferenced_arr (self p'))
    | Raise _ => inferenced_arr (self p') = inferenced_arr (self p)
    end.
Proof.
  unfold learn, bind, load, update_self, store, get_self, preprocess, lift, draw. simpl.
  destruct (__preprocess _ _) as [observed_arr|e]; simpl.
  - destruct (rbm_learn _ _ _ _ _) as [rbm g1]; simpl.
    destruct (rbm_inference _ _ _ _ _) as [inferenced g2]; simpl.
    intros [= <- <-]. simpl. by repeat split.
  - intros [= <- <-]. simpl. by repeat split.
Qed.

Lemma untrained_no_inference (p : Process) :
  untrained p → inferenced_arr (self p) = None.
Proof.
  induction 1 as [| p l e p' _ IH Hlearn | p octave r p' _ IH Hcompose | p heap g _ IH].
  - done.
  - apply learn_effect in Hlearn as (_ & _ & _ & Hinf). by rewrite Hinf.
  - rewrite (compose_without_inference p octave IH) in Hcompose.
    by injection Hcompose as _ <-.
  - done.
Qed.

(** C8.  For a composer in the UNTRAINED state, [compose] raises the
    [AttributeError] of the attribute that only [learn] assigns; nothing is
    composed and the state of the program is left as it was. *)
Theorem compose_before_learn_raises (p : Process) (octave : Z) :
  untrained p →
  compose octave p = (Raise (AttributeError "_RBMAnnealing__inferenced_arr"), p).
Proof. intros Hp. by apply compose_without_inference, untrained_no_inference. Qed.

(** C10.  [learn] rewrites the pitch column of the table it is given, in
    place and whether or not it returns: afterwards the caller's table holds
    pitch modulo 12 in every row and the same start, end, duration,
    velocity and program as before; no other table changes; the composer
    keeps only the minimum and maximum of the pitches it was given, and,
    when [learn] returns, the address of the caller's table. *)
Theorem learn_rewrites_pitch_in_place (midi_df : loc) (p p' : Process)
    (df : DataFrame Z) (r : result ()) :
  heap p !! midi_df = Some df →
  learn midi_df p = (r, p') →
  heap p' !! midi_df
    = Some ((λ row, mkRow (pitch row `mod` 12) (start row) (end_ row) (duration row)
                      (velocity row) (extra row)) <$> df)
  ∧ (∀ other, other ≠ midi_df → heap p' !! other = heap p !! other)
  ∧ max_pitch (self p') = Some (col_max ((λ row, of_int (pitch row)) <$> df))
  ∧ min_pitch (self p') = Some (col_min ((λ row, of_int (pitch row)) <$> df))
  ∧ (r = Ok () → RBMAnnealing.midi_df (self p') = Some midi_df).
Proof.
  intros Hdf Hlearn. apply learn_effect in Hlearn as (Hheap & Hmax & Hmin & Hr).
  rewrite (lookup_total_correct _ _ _ Hdf) in *. rewrite Hheap.
  split; [by rewrite lookup_insert_eq|].
  split; [by intros other Hne; rewrite lookup_insert_ne|].
  split; [done|]. split; [done|]. intros ->. tauto.
Qed.
End composer.

Lemma compose_before_learn_raises_witness :
  RBMAnnealing.untrained fresh_process
  ∧ RBMAnnealing.compose 8 fresh_process
    = (Raise (AttributeError "_RBMAnnealing__inferenced_arr"), fresh_process).
Proof.
  assert (RBMAnnealing.untrained fresh_process) as Hfresh
    by apply RBMAnnealing.untrained_init.
  split; [exact Hfresh|].
  exact (compose_before_learn_raises fresh_process 8 Hfresh).
Defined.

Lemma learn_rewrites_pitch_in_place_witness :
  RBMAnnealing.heap fresh_process !! 0%nat = Some four_note_table
  ∧ (pitch <$> four_note_table = [60; 64; 67; 72]
     ∧ (λ df : list (Row Z), pitch <$> df) <$> RBMAnnealing.heap trained_process !! 0%nat
       = Some [0; 4; 7; 0]).
Proof.
  assert (RBMAnnealing.heap fresh_process !! 0%nat = Some four_note_table) as Hdf
    by (vm_compute; reflexivity).
  split; [exact Hdf|]. split; [reflexivity|].
  assert (RBMAnnealing.learn 0%nat fresh_process = (Ok (), trained_process)) as Hlearn
    by (vm_compute; reflexivity).
  destruct (learn_rewrites_pitch_in_place 0%nat fresh_process trained_process
              four_note_table (Ok ()) Hdf Hlearn) as (Hheap & _).
  rewrite Hheap. reflexivity.
Defined.


Section composer_selection.
Import RBMAnnealing.



Context `{RandomSource G} `{External G}.

Lemma getattr_ok {A} name (field : t → option A) (s s' : Process) (a : A) :
  getattr name field s = (Ok a, s') ↔ field (self s) = Some a ∧ s' = s.
Proof.
  unfold getattr. destruct (field (self s)) as [a'|]; split.
  - by intros [= -> ->].
  - by intros [[= ->] ->].
  - done.
  - by intros [? _].
Qed.

(** What a call of [compose] that returns has done. *)
Lemma compose_ok (octave : Z) (p p' : Process) (opt_df : DataFrame GenCols) :
  compose octave p = (Ok opt_df, p') →
  ∃ log dfs z i generated,
    optimum_index log = Ok z
    ∧ py_index (length dfs) z = Some i
    ∧ dfs !! i = Some (Some generated)
    ∧ opt_df = restore_pitch generated
    ∧ predicted_log_arr (self p') = Some log
    ∧ generated_df_list (self p') = Some (<[i := Some opt_df]> dfs).
Proof.
  unfold compose.
  intros (inferenced & s1 & _ & Hrun)%bind_ok.
  apply bind_ok in Hrun as (rbm & s2 & _ & Hrun).
  apply bind_ok in Hrun as (c & s3 & _ & Hrun).
  apply bind_ok in Hrun as (sh & s4 & _ & Hrun).
  apply bind_ok in Hrun as ([params dfs] & s5 & _ & Hrun).
  apply bind_ok in Hrun as (log & s6 & _ & Hrun).
  apply bind_ok in Hrun as (z & s7 & [Hz _]%lift_ok & Hrun).
  apply bind_ok in Hrun as (slot & s8 & [Hslot _]%lift_ok & Hrun).
  destruct slot as [generated|]; [|done].
  apply bind_ok in Hrun as ([] & s9 & Hset & [-> ->]%ret_ok).
  unfold py_getitem in Hslot.
  destruct (py_index (length dfs) z) as [i|] eqn:Hi; [|done].
  destruct (dfs !! i) as [slot|] eqn:Hdfs; [|done]. injection Hslot as ->.
  unfold update_self in Hset. injection Hset as <-. simpl.
  by exists log, dfs, z, i, generated.
Qed.
End composer_selection.

Lemma insert_sorted_Permutation {X} (r : Row X) (df : DataFrame X) :
  RBMAnnealing.insert_sorted r df ≡ₚ r :: df.
Proof.
  induction df as [|r' df IH]; simpl; [done|].
  destruct (RBMAnnealing.row_le r r'); [done|].
  rewrite IH. apply Permutation_swap.
Qed.

Lemma sort_values_Permutation {X} (df : DataFrame X) : RBMAnnealing.sort_values df ≡ₚ df.
Proof.
  unfold RBMAnnealing.sort_values. induction df as [|r df IH]; simpl; [done|].
  by rewrite insert_sorted_Permutation, IH.
Qed.

Section composer_generate.
Import RBMAnnealing.
Context `{RandomSource G} `{External G}.

Lemma length_normal (loc scale : float64) (size : nat) (g : G) :
  length (normal loc scale size g).1 = size.
Proof.
  revert g. induction size as [|n IH]; intros g; simpl; [done|].
  destruct (standard_normal g) as [z g']. specialize (IH g').
  destruct (normal loc scale n g') as [l g'']. simpl in *. by rewrite IH.
Qed.

Lemma generate_self (midi_df : loc) (octave : Z) (p p' : Process)
    (r : result (DataFrame GenCols)) :
  __generate midi_df octave p = (r, p') → self p' = self p.
Proof.
  unfold __generate, bind, load, store, draw, lift, ret. simpl.
  destruct (normal _ _ _ (rng p)) as [noise g1]; simpl.
  destruct (normal _ _ _ g1) as [noise' g2]; simpl.
  destruct (np_min _) as [least|e]; simpl; [|by intros [= _ <-]].
  destruct (normal _ _ _ g2) as [velocities g3]; simpl.
  destruct (twelve_tone_generate _ _ g3) as [pitches g4]; simpl.
  destruct (np_c_ _ _ _ _) as [generated|e]; simpl; by intros [= _ <-].
Qed.

(** The steps of a call of [__generate] that returns. *)
Lemma generate_ok (midi_df : loc) (octave : Z) (p p' : Process)
    (generated_df : DataFrame GenCols) :
  __generate midi_df octave p = (Ok generated_df, p') →
  let df := heap p !!! midi_df in
  let noise := (normal (Fin 0.01) (Fin 0.01) (length df) (rng p)).1 in
  let g1 := (normal (Fin 0.01) (Fin 0.01) (length df) (rng p)).2 in
  let noise' := (normal (Fin 0.01) (Fin 0.01) (length df) g1).1 in
  let start_arr := zip_with fadd (start <$> df) noise in
  let df1 := zip_with set_start df start_arr in
  let jittered := zip_with fadd (duration <$> df1) noise' in
  ∃ least pitch_arr velocity_arr rows,
    np_min (filter (λ d, fgt d (Fin 0)) jittered) = Ok least
    ∧ let duration_arr := (λ d, if flt d (Fin 0) then least else d) <$> jittered in
      heap p'
      = <[midi_df := zip_with set_duration (zip_with set_duration df1 jittered) duration_arr]>
          (heap p)
      ∧ np_c_ pitch_arr start_arr duration_arr velocity_arr = Ok rows
      ∧ ∃ low,
          generated_df
          = dropna (sort_values
              ((λ r, set_pitch r (pitch r `mod` 12))
               <$> ((λ r, mkRow (pitch r) (start r) (fadd (start r) (duration r))
                            (duration r) (velocity r) (extra r))
                    <$> ((λ r, set_start r (fadd (start r) (fmul low (Fin (-1)))))
                         <$> rows)))).
Proof.
  unfold __generate, bind, load, store, draw, lift, ret. simpl.
  destruct (normal _ _ _ (rng p)) as [noise g1]; simpl.
  rewrite !lookup_total_insert_eq.
  destruct (normal _ _ _ g1) as [noise' g2]; simpl.
  rewrite !lookup_total_insert_eq.
  destruct (np_min _) as [least|e] eqn:Hleast; simpl; [|done].
  rewrite !lookup_total_insert_eq.
  destruct (normal _ _ _ g2) as [velocities g3]; simpl.
  destruct (twelve_tone_generate _ _ g3) as [pitches g4]; simpl.
  destruct (np_c_ _ _ _ _) as [generated|e] eqn:Hrows; simpl; [|done].
  intros [= <- <-]. simpl.
  eexists least, _, _, generated. split; [done|].
  split; [by rewrite !insert_insert_eq|]. split; [exact Hrows|].
  by eexists.
Qed.

Lemma start_of_set_start (l : list (Row Z)) (xs : list float64) :
  length xs = length l → start <$> zip_with set_start l xs = xs.
Proof.
  revert xs. induction l as [|r l IH]; intros [|x xs]; simpl; try done.
  intros [= Hlen]. by rewrite IH.
Qed.

Lemma start_of_set_duration (l : list (Row Z)) (xs : list float64) :
  length xs = length l → start <$> zip_with set_duration l xs = start <$> l.
Proof.
  revert xs. induction l as [|r l IH]; intros [|x xs]; simpl; try done.
  intros [= Hlen]. by rewrite IH.
Qed.

(** The first statement of [__generate] already rewrites the reference
    table: whenever the call returns, the [start] column of the table at
    [midi_df] is the old column plus the jitter. *)
Lemma generate_writes_start_jitter (midi_df : loc) (octave : Z) (p p' : Process)
    (generated_df : DataFrame GenCols) :
  __generate midi_df octave p = (Ok generated_df, p') →
  let df := heap p !!! midi_df in
  start <$> (heap p' !!! midi_df)
  = zip_with fadd (start <$> df) (normal (Fin 0.01) (Fin 0.01) (length df) (rng p)).1.
Proof.
  intros (least & _ & _ & _ & _ & Hheap & _)%generate_ok. simpl in *.
  rewrite Hheap, lookup_total_insert_eq.
  set (df := heap p !!! midi_df).
  set (noise := (normal _ _ _ (rng p)).1).
  assert (length noise = length df) as Hnoise by apply length_normal.
  set (start_arr := zip_with fadd (start <$> df) noise).
  assert (length start_arr = length df) as Hstart.
  { unfold start_arr. rewrite length_zip_with, length_fmap. lia. }
  set (df1 := zip_with set_start df start_arr).
  assert (length df1 = length df) as Hdf1.
  { unfold df1. rewrite length_zip_with. lia. }
  set (noise' := (normal _ _ _ _).1).
  assert (length noise' = length df) as Hnoise' by apply length_normal.
  set (jittered := zip_with fadd (duration <$> df1) noise').
  assert (length jittered = length df) as Hjit.
  { unfold jittered. rewrite length_zip_with, length_fmap. lia. }
  rewrite !start_of_set_duration.
  - by apply start_of_set_start.
  - lia.
  - rewrite length_fmap, length_zip_with. lia.
Qed.
End composer_generate.

Section composer_candidates.
Import RBMAnnealing.
Context `{RandomSource G} `{External G}.

Lemma foldr_Qmin_positive (q : Q) (l : list Q) :
  (∀ x, x ∈ q :: l → (0 < x)%Q) → (0 < foldr Qmin q l)%Q.
Proof.
  induction l as [|y l IH]; simpl; intros Hall.
  - apply Hall. left.
  - apply Q.min_glb_lt.
    + apply Hall. right; left.
    + apply IH. intros x [->|Hx]%elem_of_cons; apply Hall; [left|by right; right].
Qed.

(** The replacement value of the negative durations is positive. *)
Lemma least_positive_duration (jittered : list float64) (least : float64) :
  np_min (filter (λ d, fgt d (Fin 0)) jittered) = Ok least →
  ∃ lo, least = Fin lo ∧ (0 < lo)%Q.
Proof.
  set (positive := filter _ jittered).
  assert (∀ x, x ∈ positive → ∃ q, x = Fin q ∧ (0 < q)%Q) as Hpos.
  { intros x [Hgt _]%list_elem_of_filter. destruct x as [|q]; [done|].
    exists q. split; [done|]. unfold fgt, flt, Qltb in Hgt.
    apply Is_true_true, negb_true_iff in Hgt.
    destruct (Qlt_le_dec 0 q) as [|Hle]; [done|].
    apply Qle_bool_iff in Hle. congruence. }
  unfold np_min. destruct positive as [|x0 rest] eqn:E; [done|].
  assert (forallb (λ x, negb (isnan x)) (x0 :: rest) = true) as ->.
  { apply forallb_forall. intros x Hx%list_elem_of_In.
    by destruct (Hpos x Hx) as (q & -> & _). }
  intros [= <-]. unfold col_min.
  destruct (finite_vals (x0 :: rest)) as [|q l] eqn:Hvals.
  { destruct (Hpos x0) as (q & -> & _); [left|]. done. }
  eexists. split; [done|]. apply foldr_Qmin_positive.
  intros x Hx. rewrite <- Hvals in Hx. apply finite_vals_elem in Hx.
  destruct (Hpos _ Hx) as (q' & [= <-] & Hq'). done.
Qed.

(** What the clamp of [__generate] does achieve: no duration of a generated
    table is missing or negative. *)
Lemma generate_durations_not_negative (midi_df : loc) (octave : Z) (p p' : Process)
    (generated_df : DataFrame GenCols) :
  __generate midi_df octave p = (Ok generated_df, p') →
  ∀ r, r ∈ generated_df → ∃ d, duration r = Fin d ∧ (0 <= d)%Q.
Proof.
  intros (least & pitch_arr & velocity_arr & rows & Hleast & _ & Hrows & low & ->)%generate_ok.
  simpl in *. intros r [Hna Hr]%list_elem_of_filter.
  rewrite sort_values_Permutation in Hr.
  apply list_elem_of_fmap in Hr as (r2 & -> & Hr).
  apply list_elem_of_fmap in Hr as (r1 & -> & Hr).
  apply list_elem_of_fmap in Hr as (r0 & -> & Hr).
  unfold np_c_ in Hrows. case_decide; [|done]. injection Hrows as <-.
  apply elem_of_zip_with in Hr as (ps & [d v] & -> & _ & Hdv).
  apply elem_of_zip_l in Hdv. simpl in *.
  apply list_elem_of_fmap in Hdv as (d0 & -> & _).
  apply least_positive_duration in Hleast as (lo & -> & Hlo).
  destruct (flt d0 (Fin 0)) eqn:Hneg.
  - exists lo. split; [done|]. by apply Qlt_le_weak.
  - destruct d0 as [|q].
    + unfold hasna in Hna. simpl in Hna.
      by rewrite !orb_true_r in Hna.
    + exists q. split; [done|]. unfold flt, Qltb in Hneg.
      apply negb_false_iff in Hneg. by apply Qle_bool_iff.
Qed.
End composer_candidates.

(** Evaluates the left list of a comparison of columns. *)
Ltac eval_column :=
  match goal with
  | |- Forall2 feq ?l _ =>
      let v := eval vm_compute in l in
      replace l with v by (vm_compute; reflexivity);
      repeat constructor
  end.

(** C3.  [__generate] changes the table it reads.  On the trained composer
    over the four-note table, with jitter 0.01 on every draw, a first call
    leaves the stored reference table with every start and duration raised
    by 0.01, and a second call raises them again: the two calls did not read
    the same reference values. *)
Theorem generate_changes_reference_table :
  let p1 := (RBMAnnealing.__generate 0%nat 8 trained_process).2 in
  let p2 := (RBMAnnealing.__generate 0%nat 8 p1).2 in
  (∃ generated_df, (RBMAnnealing.__generate 0%nat 8 trained_process).1 = Ok generated_df)
  ∧ (∃ generated_df, (RBMAnnealing.__generate 0%nat 8 p1).1 = Ok generated_df)
  ∧ Forall2 feq (start <$> (RBMAnnealing.heap trained_process !!! 0%nat))
      [Fin 0; Fin 0.5; Fin 1; Fin 2]
  ∧ Forall2 feq (start <$> (RBMAnnealing.heap p1 !!! 0%nat))
      [Fin 0.01; Fin 0.51; Fin 1.01; Fin 2.01]
  ∧ Forall2 feq (start <$> (RBMAnnealing.heap p2 !!! 0%nat))
      [Fin 0.02; Fin 0.52; Fin 1.02; Fin 2.02]
  ∧ Forall2 feq (duration <$> (RBMAnnealing.heap trained_process !!! 0%nat))
      [Fin 0.5; Fin 0.5; Fin 1; Fin 0.25]
  ∧ Forall2 feq (duration <$> (RBMAnnealing.heap p1 !!! 0%nat))
      [Fin 0.51; Fin 0.51; Fin 1.01; Fin 0.26]
  ∧ Forall2 feq (duration <$> (RBMAnnealing.heap p2 !!! 0%nat))
      [Fin 0.52; Fin 0.52; Fin 1.02; Fin 0.27].
Proof.
  intros p1 p2.
  split; [vm_compute; by eexists|].
  split; [vm_compute; by eexists|].
  repeat split; eval_column.
Qed.

(** C4.  A jittered duration of exactly zero is not replaced.  The first note
    of the table has duration 0.01 and receives the jitter -0.01: the
    generated table keeps that note with duration 0. *)
Theorem generate_keeps_zero_duration :
  ∃ generated_df,
    (RBMAnnealing.__generate 0%nat 8 short_note_process).1 = Ok generated_df
    ∧ Forall2 feq (duration <$> generated_df) [Fin 0; Fin 1.01].
Proof.
  eexists. split; [vm_compute; reflexivity|]. eval_column.
Qed.

(** ** Further properties of [__preprocess] *)

Lemma preprocess_lookup {X} (midi_df_ : DataFrame X) (cycle_len : nat) (a : ndarray3)
    (k : nat) (w : list (list float64)) :
  __preprocess midi_df_ cycle_len = Ok a →
  data a !! k = Some w →
  (cycle_len + k < length (dropna midi_df_))%nat
  ∧ w = feature_values <$> take cycle_len (drop k (normalise (dropna midi_df_))).
Proof.
  unfold __preprocess. rewrite length_normalise.
  case_decide; [done|]. intros [= <-]. simpl.
  rewrite list_lookup_fmap. unfold range.
  destruct (seq _ _ !! k) as [i|] eqn:Hi; [|done].
  apply lookup_seq in Hi as [-> Hk]. intros [= <-].
  split; [lia|]. unfold iloc. do 3 f_equal; lia.
Qed.

(** Consecutive windows overlap: window [k + 1] is window [k] moved on by one
    row. *)
Theorem preprocess_windows_slide {X} (midi_df_ : DataFrame X) (cycle_len : nat)
    (observed_arr : ndarray3) (k j : nat) (w w' : list (list float64)) :
  __preprocess midi_df_ cycle_len = Ok observed_arr →
  data observed_arr !! k = Some w →
  data observed_arr !! S k = Some w' →
  (S j < cycle_len)%nat →
  w' !! j = w !! S j ∧ is_Some (w' !! j).
Proof.
  intros Hrun Hw Hw' Hj.
  apply (preprocess_lookup _ _ _ _ _ Hrun) in Hw as [_ ->].
  apply (preprocess_lookup _ _ _ _ _ Hrun) in Hw' as [Hlen ->].
  rewrite !list_lookup_fmap, !lookup_take_lt, !lookup_drop by lia.
  replace (S k + j)%nat with (k + S j)%nat by lia. split; [done|].
  apply fmap_is_Some, lookup_lt_is_Some. rewrite length_normalise. lia.
Qed.

Lemma preprocess_windows_slide_witness :
  ∃ observed_arr w w',
    __preprocess four_note_table 2 = Ok observed_arr
    ∧ data observed_arr !! 0%nat = Some w
    ∧ data observed_arr !! 1%nat = Some w'
    ∧ w' !! 0%nat = w !! 1%nat ∧ is_Some (w' !! 0%nat).
Proof.
  eexists _, _, _. split; [vm_compute; reflexivity|].
  split; [reflexivity|]. split; [reflexivity|].
  eapply (preprocess_windows_slide four_note_table 2 _ 0 0).
  - vm_compute; reflexivity.
  - reflexivity.
  - reflexivity.
  - lia.
Defined.

(** The scaling of a constant column divides by zero. *)
Lemma minmax_constant (col : list float64) (x : float64) :
  constant_column col → minmax col x = NaN.
Proof.
  intros Hconst. unfold minmax, col_min, col_max.
  destruct (finite_vals col) as [|q l] eqn:Hvals; simpl.
  { by destruct x. }
  destruct (foldr_Qmin_attained q l) as (lo & Hlo & Elo).
  destruct (foldr_Qmax_attained q l) as (hi & Hhi & Ehi).
  rewrite <- Hvals in Hlo, Hhi. apply finite_vals_elem in Hlo, Hhi.
  pose proof (Hconst _ _ Hhi Hlo) as Heq.
  destruct x as [|a]; simpl; [done|].
  assert (foldr Qmax q l - foldr Qmin q l == 0)%Q as Hzero by (rewrite Elo, Ehi; lra).
  apply Qeq_bool_iff in Hzero. by rewrite Hzero.
Qed.

(** A column that is constant over the rows kept by [dropna] turns into [NaN]
    in every window: position 0 for pitch, 1 for start, 2 for duration and 3
    for velocity. *)
Theorem preprocess_constant_column_is_nan {X} (midi_df_ : DataFrame X) (cycle_len : nat)
    (observed_arr : ndarray3) (w : list (list float64)) (v : list float64) :
  __preprocess midi_df_ cycle_len = Ok observed_arr →
  w ∈ data observed_arr → v ∈ w →
  let midi_df := dropna midi_df_ in
  (constant_column ((λ r, of_int (pitch r)) <$> midi_df) → v !! 0%nat = Some NaN)
  ∧ (constant_column (start <$> midi_df) → v !! 1%nat = Some NaN)
  ∧ (constant_column (duration <$> midi_df) → v !! 2%nat = Some NaN)
  ∧ (constant_column ((λ r, of_int (velocity r)) <$> midi_df) → v !! 3%nat = Some NaN).
Proof.
  intros Hrun [k Hk]%list_elem_of_lookup Hv midi_df.
  apply (preprocess_lookup _ _ _ _ _ Hrun) in Hk as [_ ->].
  apply list_elem_of_fmap in Hv as (s & -> & Hs).
  apply elem_of_take in Hs as (i & Hs & _). rewrite lookup_drop in Hs.
  unfold normalise in Hs. rewrite list_lookup_fmap in Hs.
  destruct (dropna midi_df_ !! (k + i)%nat) as [r|]; [|done].
  injection Hs as <-. unfold feature_values; simpl.
  repeat split; intros Hconst; by rewrite minmax_constant.
Qed.

Lemma preprocess_constant_column_is_nan_witness :
  let table := [ mkRow 60 (Fin 0) (Fin 1) (Fin 1) 64 0; mkRow 60 (Fin 1) (Fin 2) (Fin 1) 70 0 ] in
  let v := [NaN; Fin (0 # 1); NaN; Fin (0 # 6)] in
  __preprocess table 1
  = Ok (mkArr3 (1, 1, 4)%nat [[[NaN; Fin (0 # 1); NaN; Fin (0 # 6)]]])
  ∧ v !! 0%nat = Some NaN.
Proof.
  intros table v.
  assert (__preprocess table 1
          = Ok (mkArr3 (1, 1, 4)%nat [[[NaN; Fin (0 # 1); NaN; Fin (0 # 6)]]])) as Hrun
    by (vm_compute; reflexivity).
  split; [exact Hrun|].
  destruct (preprocess_constant_column_is_nan table 1 _ [v] v Hrun ltac:(left) ltac:(left))
    as (Hpitch & _).
  apply Hpitch. intros a b Ha Hb. simpl in Ha, Hb.
  assert (∀ c, Fin c ∈ [of_int 60; of_int 60] → c = inject_Z 60) as Hall.
  { intros c Hc. repeat (apply elem_of_cons in Hc as [Hc|Hc]; [by injection Hc|]).
    by apply elem_of_nil in Hc. }
  by rewrite (Hall a Ha), (Hall b Hb).
Defined.

Lemma preprocess_empty_at_cycle_len_witness :
  length (dropna (take 2 four_note_table)) = 2%nat
  ∧ __preprocess (take 2 four_note_table) 2 = Ok (mkArr3 (0, 2, 4)%nat []).
Proof.
  split; [reflexivity|].
  apply (preprocess_empty_at_cycle_len (take 2 four_note_table) 2). reflexivity.
Defined.

(** ** Further properties of [__generate] *)

Lemma filter_all {A} (P : A → Prop) `{∀ x, Decision (P x)} (l : list A) :
  (∀ x, x ∈ l → P x) → filter P l = l.
Proof.
  induction l as [|x l IH]; intros Hall; [done|].
  rewrite filter_cons_True by (apply Hall; left).
  f_equal. apply IH. intros y Hy. apply Hall. by right.
Qed.

Lemma StronglySorted_filter {A} (R : relation A) (P : A → Prop) `{∀ x, Decision (P x)}
    (l : list A) :
  StronglySorted R l → StronglySorted R (filter P l).
Proof.
  induction 1 as [|x l Hl IH Hx]; [constructor|].
  rewrite filter_cons. case_decide; [|done].
  constructor; [done|]. apply Forall_forall.
  intros y [_ Hy]%list_elem_of_filter. by eapply Forall_forall in Hx.
Qed.

Lemma StronglySorted_lookup {A} (R : relation A) (l : list A) (i j : nat) (x y : A) :
  StronglySorted R l → (i < j)%nat → l !! i = Some x → l !! j = Some y → R x y.
Proof.
  intros Hl. revert i j. induction Hl as [|z l Hl IH Hz]; intros i j Hij Hi Hj; [done|].
  destruct i as [|i], j as [|j]; try lia; simpl in *.
  - injection Hi as ->. eapply Forall_forall in Hz; [done|]. by eapply list_elem_of_lookup_2.
  - eapply (IH i j); [lia|done|done].
Qed.

Section generate_properties.
Import RBMAnnealing.
Context `{RandomSource G} `{External G}.

Lemma key_le_total (a b : float64) : key_le a b = false → key_le b a = true.
Proof.
  destruct a as [|x], b as [|y]; simpl; try done.
  intros Hxy. apply Qle_bool_iff. destruct (Qlt_le_dec y x) as [Hlt|Hle].
  - by apply Qlt_le_weak.
  - apply Qle_bool_iff in Hle. congruence.
Qed.

Lemma key_le_trans (a b c : float64) :
  key_le a b = true → key_le b c = true → key_le a c = true.
Proof.
  destruct a as [|x], b as [|y], c as [|z]; simpl; try done.
  rewrite !Qle_bool_iff. apply Qle_trans.
Qed.

Lemma row_le_key {X} (r1 r2 : Row X) :
  row_le r1 r2 → key_le (start r1) (start r2) = true.
Proof.
  unfold row_le. intros [Hlt|[Hle _]%andb_prop_elim]%orb_prop_elim.
  - apply key_le_total. apply Is_true_true, negb_true_iff in Hlt. done.
  - by apply Is_true_true.
Qed.

#[local] Instance row_le_total {X} : Total (λ r1 r2 : Row X, Is_true (row_le r1 r2)).
Proof.
  intros r1 r2. unfold row_le.
  destruct (key_le (start r2) (start r1)) eqn:H21; simpl; [|by left].
  destruct (key_le (start r1) (start r2)) eqn:H12; simpl; [|by right].
  destruct (key_le (end_ r1) (end_ r2)) eqn:He; simpl; [by left|].
  right. by rewrite (key_le_total _ _ He).
Qed.

#[local] Instance row_le_trans {X} : Transitive (λ r1 r2 : Row X, Is_true (row_le r1 r2)).
Proof.
  intros r1 r2 r3 H12 H23.
  pose proof (row_le_key _ _ H12) as K12. pose proof (row_le_key _ _ H23) as K23.
  pose proof (key_le_trans _ _ _ K12 K23) as K13.
  unfold row_le in *. rewrite K12 in H12. rewrite K23 in H23. rewrite K13. simpl in *.
  destruct (key_le (start r3) (start r1)) eqn:K31; simpl; [|done].
  assert (key_le (start r2) (start r1) = true) as K21
    by (eapply key_le_trans; [exact K23|exact K31]).
  assert (key_le (start r3) (start r2) = true) as K32
    by (eapply key_le_trans; [exact K31|exact K12]).
  rewrite K21 in H12. rewrite K32 in H23. simpl in *.
  apply Is_true_true. apply Is_true_true in H12, H23. by eapply key_le_trans.
Qed.

Lemma insert_sorted_sorted {X} (r : Row X) (df : DataFrame X) :
  StronglySorted (λ r1 r2, Is_true (row_le r1 r2)) df →
  StronglySorted (λ r1 r2, Is_true (row_le r1 r2)) (insert_sorted r df).
Proof.
  induction 1 as [|r' df Hdf IH Hr']; simpl; [by repeat constructor|].
  destruct (row_le r r') eqn:Hle.
  - constructor; [by constructor|]. constructor; [by rewrite Hle|].
    eapply Forall_impl; [exact Hr'|]. intros x Hx. simpl in Hx.
    etrans; [|exact Hx]. by rewrite Hle.
  - constructor; [done|]. rewrite insert_sorted_Permutation. constructor; [|done].
    destruct (total (λ r1 r2 : Row X, Is_true (row_le r1 r2)) r r') as [Hrr|Hrr]; [|done].
    by rewrite Hle in Hrr.
Qed.

Lemma sort_values_sorted {X} (df : DataFrame X) :
  StronglySorted (λ r1 r2, Is_true (row_le r1 r2)) (sort_values df).
Proof.
  unfold sort_values. induction df as [|r df IH]; simpl; [constructor|].
  by apply insert_sorted_sorted.
Qed.

Lemma normal_finite (loc scale : Q) (size : nat) (g : G) (x : float64) :
  x ∈ (normal (Fin loc) (Fin scale) size g).1 → ∃ q, x = Fin q.
Proof.
  revert g. induction size as [|n IH]; intros g; simpl.
  - by intros ?%elem_of_nil.
  - destruct (standard_normal g) as [z g']. specialize (IH g').
    destruct (normal (Fin loc) (Fin scale) n g') as [l g'']. simpl in *.
    intros [->|Hx]%elem_of_cons; [by eexists|by apply IH].
Qed.

(** The table that a returning call of [__generate] builds, with the shift
    of the start column written out. *)
Lemma generate_table (midi_df : loc) (octave : Z) (p p' : Process)
    (generated_df : DataFrame GenCols) :
  __generate midi_df octave p = (Ok generated_df, p') →
  let df := heap p !!! midi_df in
  let noise := (normal (Fin 0.01) (Fin 0.01) (length df) (rng p)).1 in
  let g1 := (normal (Fin 0.01) (Fin 0.01) (length df) (rng p)).2 in
  let noise' := (normal (Fin 0.01) (Fin 0.01) (length df) g1).1 in
  let start_arr := zip_with fadd (start <$> df) noise in
  let df1 := zip_with set_start df start_arr in
  let jittered := zip_with fadd (duration <$> df1) noise' in
  ∃ least pitch_arr velocity_arr rows,
    np_min (filter (λ d, fgt d (Fin 0)) jittered) = Ok least
    ∧ let duration_arr := (λ d, if flt d (Fin 0) then least else d) <$> jittered in
      np_c_ pitch_arr start_arr duration_arr velocity_arr = Ok rows
      ∧ generated_df
        = dropna (sort_values
            ((λ r, set_pitch r (pitch r `mod` 12))
             <$> ((λ r, mkRow (pitch r) (start r) (fadd (start r) (duration r))
                          (duration r) (velocity r) (extra r))
                  <$> ((λ r, set_start r
                               (fadd (start r) (fmul (col_min (start <$> rows)) (Fin (-1)))))
                       <$> rows)))).
Proof.
  unfold __generate, bind, load, store, draw, lift, ret. simpl.
  destruct (normal _ _ _ (rng p)) as [noise g1]; simpl.
  rewrite !lookup_total_insert_eq.
  destruct (normal _ _ _ g1) as [noise' g2]; simpl.
  rewrite !lookup_total_insert_eq.
  destruct (np_min _) as [least|e] eqn:Hleast; simpl; [|done].
  rewrite !lookup_total_insert_eq.
  destruct (normal _ _ _ g2) as [velocities g3]; simpl.
  destruct (twelve_tone_generate _ _ g3) as [pitches g4]; simpl.
  destruct (np_c_ _ _ _ _) as [generated|e] eqn:Hrows; simpl; [|done].
  intros [= <- <-].
  eexists least, _, _, generated. split; [done|]. split; [exact Hrows|done].
Qed.

(** The rows of a generated table, one by one. *)
Lemma generate_row (midi_df : loc) (octave : Z) (p p' : Process)
    (generated_df : DataFrame GenCols) (r : Row GenCols) :
  __generate midi_df octave p = (Ok generated_df, p') →
  r ∈ generated_df →
  ∃ pitch0 s d velocity0,
    r = mkRow (pitch0 `mod` 12) (Fin s) (fadd (Fin s) (Fin d)) (Fin d) velocity0
          (mkGenCols pitch0 None)
    ∧ (0 <= s)%Q.
Proof.
  intros (least & pitch_arr & velocity_arr & rows & _ & Hrows & ->)%generate_table.
  simpl in *. intros [Hna Hr]%list_elem_of_filter.
  rewrite sort_values_Permutation in Hr.
  apply list_elem_of_fmap in Hr as (r2 & -> & Hr).
  apply list_elem_of_fmap in Hr as (r1 & -> & Hr).
  apply list_elem_of_fmap in Hr as (r0 & -> & Hr).
  assert (start r0 ∈ start <$> rows) as Hstart by (apply list_elem_of_fmap; eauto).
  unfold np_c_ in Hrows. case_decide; [|done]. injection Hrows as <-.
  apply elem_of_zip_with in Hr as ([pitch0 s0] & [d0 velocity0] & -> & _ & _).
  simpl in *. unfold hasna in Hna. simpl in Hna.
  destruct s0 as [|q]; [done|].
  destruct (col_min_lower _ _ Hstart) as (lo & Hlo & Hle). rewrite Hlo in *. simpl in *.
  destruct d0 as [|d]; [done|].
  exists pitch0, (q + lo * -1)%Q, d, velocity0. split; [done|]. lra.
Qed.

(** Every row of a generated table has a pitch class from 0 to 11 that is
    its [origin_pitch] modulo 12, a start that is not negative, a duration
    that is not negative, [end = start + duration], and no [feature_pitch]
    yet. *)
Theorem generate_row_invariants (midi_df : loc) (octave : Z) (p p' : Process)
    (generated_df : DataFrame GenCols) (r : Row GenCols) :
  __generate midi_df octave p = (Ok generated_df, p') →
  r ∈ generated_df →
  ∃ s d,
    start r = Fin s ∧ duration r = Fin d ∧ end_ r = Fin (s + d)
    ∧ (0 <= s)%Q ∧ (0 <= d)%Q
    ∧ pitch r = origin_pitch (extra r) `mod` 12
    ∧ 0 ≤ pitch r < 12
    ∧ feature_pitch (extra r) = None.
Proof.
  intros Hgen Hr.
  destruct (generate_durations_not_negative _ _ _ _ _ Hgen r Hr) as (d' & Hd' & Hpos).
  destruct (generate_row _ _ _ _ _ r Hgen Hr) as (pitch0 & s & d & velocity0 & -> & Hs).
  simpl in *. injection Hd' as <-. exists s, d.
  repeat split; try done; by apply Z.mod_pos_bound.
Qed.

(** The rows of a generated table come in the order of their start, and
    rows with equal start in the order of their end. *)
Theorem generate_sorted_by_start (midi_df : loc) (octave : Z) (p p' : Process)
    (generated_df : DataFrame GenCols) (i j : nat) (ri rj : Row GenCols) :
  __generate midi_df octave p = (Ok generated_df, p') →
  (i < j)%nat → generated_df !! i = Some ri → generated_df !! j = Some rj →
  ∃ si sj ei ej,
    start ri = Fin si ∧ start rj = Fin sj ∧ end_ ri = Fin ei ∧ end_ rj = Fin ej
    ∧ (si <= sj)%Q ∧ ((si == sj)%Q → (ei <= ej)%Q).
Proof.
  intros Hgen Hij Hi Hj.
  destruct (generate_row _ _ _ _ _ ri Hgen) as (pi & si & di & vi & Eri & _);
    [by eapply list_elem_of_lookup_2|].
  destruct (generate_row _ _ _ _ _ rj Hgen) as (pj & sj & dj & vj & Erj & _);
    [by eapply list_elem_of_lookup_2|].
  apply generate_table in Hgen as (least & pitch_arr & velocity_arr & rows & _ & _ & Hdf).
  simpl in Hdf.
  assert (StronglySorted (λ r1 r2 : Row GenCols, Is_true (row_le r1 r2)) generated_df)
    as Hsorted.
  { rewrite Hdf. unfold dropna. apply StronglySorted_filter, sort_values_sorted. }
  pose proof (StronglySorted_lookup _ _ _ _ _ _ Hsorted Hij Hi Hj) as Hle.
  pose proof (row_le_key _ _ Hle) as Hkey.
  subst ri rj. simpl in *. exists si, sj, (si + di)%Q, (sj + dj)%Q.
  repeat split; try done.
  - by apply Qle_bool_iff.
  - intros Heq. unfold row_le in Hle. simpl in Hle.
    assert (Qle_bool sj si = true) as Hrev
      by (apply Qle_bool_iff; rewrite Heq; apply Qle_refl).
    rewrite Hrev in Hle. simpl in Hle. apply andb_prop_elim in Hle as [_ Hle].
    apply Is_true_true in Hle. by apply Qle_bool_iff in Hle.
Qed.

Lemma same_others_set_start (l : list (Row Z)) (xs : list float64) :
  length xs = length l → Forall2 same_other_columns l (zip_with set_start l xs).
Proof.
  revert xs. induction l as [|r l IH]; intros [|x xs]; simpl; try done.
  intros [= Hlen]. constructor; [done|by apply IH].
Qed.

Lemma same_others_set_duration (l : list (Row Z)) (xs : list float64) :
  length xs = length l → Forall2 same_other_columns l (zip_with set_duration l xs).
Proof.
  revert xs. induction l as [|r l IH]; intros [|x xs]; simpl; try done.
  intros [= Hlen]. constructor; [done|by apply IH].
Qed.

#[local] Instance same_others_trans : Transitive (@same_other_columns Z).
Proof.
  intros r1 r2 r3 (? & ? & ? & ?) (? & ? & ? & ?).
  unfold same_other_columns. repeat split; congruence.
Qed.

Lemma generate_heap_frame (midi_df : loc) (octave : Z) (p p' : Process)
    (res : result (DataFrame GenCols)) :
  __generate midi_df octave p = (res, p') →
  (∀ other, other ≠ midi_df → heap p' !! other = heap p !! other)
  ∧ Forall2 same_other_columns (heap p !!! midi_df) (heap p' !!! midi_df).
Proof.
  unfold __generate, bind, load, store, draw, lift, ret. simpl.
  set (df := heap p !!! midi_df).
  pose proof (length_normal (Fin 0.01) (Fin 0.01) (length df) (rng p)) as Hnoise.
  destruct (normal _ _ _ (rng p)) as [noise g1]; simpl in *.
  rewrite !lookup_total_insert_eq.
  pose proof (length_normal (Fin 0.01) (Fin 0.01) (length df) g1) as Hnoise'.
  destruct (normal _ _ _ g1) as [noise' g2]; simpl in *.
  rewrite !lookup_total_insert_eq.
  set (start_arr := zip_with fadd (start <$> df) noise).
  assert (length start_arr = length df) as Hstart.
  { unfold start_arr. rewrite length_zip_with, length_fmap. lia. }
  set (df1 := zip_with set_start df start_arr).
  assert (length df1 = length df) as Hdf1.
  { unfold df1. rewrite length_zip_with. lia. }
  set (jittered := zip_with fadd (duration <$> df1) noise').
  assert (length jittered = length df) as Hjit.
  { unfold jittered. rewrite length_zip_with, length_fmap. lia. }
  set (df2 := zip_with set_duration df1 jittered).
  assert (length df2 = length df) as Hdf2.
  { unfold df2. rewrite length_zip_with. lia. }
  assert (Forall2 same_other_columns df df2) as H2.
  { etrans; [apply (same_others_set_start df start_arr); lia|].
    apply same_others_set_duration. lia. }
  destruct (np_min _) as [least|e]; simpl.
  - rewrite !lookup_total_insert_eq.
    set (duration_arr := (λ d, if flt d (Fin 0) then least else d) <$> jittered).
    assert (Forall2 same_other_columns df (zip_with set_duration df2 duration_arr)) as H3.
    { etrans; [exact H2|]. apply same_others_set_duration.
      unfold duration_arr. rewrite length_fmap. lia. }
    destruct (normal _ _ _ g2) as [velocities g3]; simpl.
    destruct (twelve_tone_generate _ _ g3) as [pitches g4]; simpl.
    destruct (np_c_ _ _ _ _) as [generated|e]; simpl; intros [= _ <-]; simpl;
      (split; [by intros other Hne; rewrite !lookup_insert_ne|]);
      by rewrite lookup_total_insert_eq.
  - intros [= _ <-]. simpl.
    split; [by intros other Hne; rewrite !lookup_insert_ne|].
    by rewrite lookup_total_insert_eq.
Qed.

(** Whether it returns or raises, [__generate] touches nothing but the start
    and duration columns of the table it is given: the composer object and
    every other table stay as they are, and the table keeps its rows with
    their pitch, end, velocity and program. *)
Theorem generate_frame (midi_df : loc) (octave : Z) (p p' : Process)
    (res : result (DataFrame GenCols)) :
  __generate midi_df octave p = (res, p') →
  self p' = self p
  ∧ (∀ other, other ≠ midi_df → heap p' !! other = heap p !! other)
  ∧ Forall2 same_other_columns (heap p !!! midi_df) (heap p' !!! midi_df).
Proof.
  intros Hgen. split.
  - by eapply generate_self.
  - by eapply generate_heap_frame.
Qed.

(** On a table without rows [__generate] raises a [ValueError]: no jittered
    duration is positive, and the minimum of nothing is asked for. *)
Theorem generate_raises_on_empty_table (midi_df : loc) (octave : Z) (p : Process) :
  heap p !!! midi_df = [] →
  (__generate midi_df octave p).1 = Raise ValueError.
Proof.
  intros Hempty. unfold __generate, bind, load, store, draw, lift, ret. simpl.
  rewrite Hempty. simpl. by rewrite !lookup_total_insert_eq.
Qed.

(** A generated table has at most as many rows as the reference table, and
    as many when no start and no duration of the reference is missing. *)
Theorem generate_row_count (midi_df : loc) (octave : Z) (p p' : Process)
    (generated_df : DataFrame GenCols) :
  __generate midi_df octave p = (Ok generated_df, p') →
  (length generated_df ≤ length (heap p !!! midi_df))%nat
  ∧ ((∀ r, r ∈ heap p !!! midi_df → isnan (start r) = false ∧ isnan (duration r) = false) →
     length generated_df = length (heap p !!! midi_df)).
Proof.
  intros (least & pitch_arr & velocity_arr & rows & Hleast & Hrows & ->)%generate_table.
  simpl in *. set (df := heap p !!! midi_df) in *.
  pose proof (length_normal (Fin 0.01) (Fin 0.01) (length df) (rng p)) as Hnoise.
  set (noise := (normal _ _ _ (rng p)).1) in *.
  set (g1 := (normal _ _ _ (rng p)).2) in *.
  pose proof (length_normal (Fin 0.01) (Fin 0.01) (length df) g1) as Hnoise'.
  set (noise' := (normal _ _ _ g1).1) in *.
  set (start_arr := zip_with fadd (start <$> df) noise) in *.
  assert (length start_arr = length df) as Hstart.
  { unfold start_arr. rewrite length_zip_with, length_fmap. lia. }
  set (df1 := zip_with set_start df start_arr) in *.
  set (jittered := zip_with fadd (duration <$> df1) noise') in *.
  set (duration_arr := (λ d, if flt d (Fin 0) then least else d) <$> jittered) in *.
  unfold np_c_ in Hrows. case_decide as Hlens; [|done]. injection Hrows as <-.
  destruct Hlens as (Hl1 & Hl2 & Hl3).
  set (rows := zip_with _ (zip pitch_arr start_arr) (zip duration_arr velocity_arr)).
  assert (length rows = length df) as Hlen.
  { unfold rows. rewrite length_zip_with, !length_zip. lia. }
  set (table := (λ r, set_pitch r (pitch r `mod` 12)) <$> _).
  assert (length (sort_values table) = length df) as Hsorted.
  { rewrite sort_values_Permutation.
    unfold table. by rewrite !length_fmap. }
  split.
  { unfold dropna. etrans; [apply length_filter|]. by rewrite Hsorted. }
  intros Hfinite. rewrite <- Hsorted. unfold dropna. f_equal.
  apply filter_all. intros r Hr.
  rewrite sort_values_Permutation in Hr.
  apply list_elem_of_fmap in Hr as (r2 & -> & Hr).
  apply list_elem_of_fmap in Hr as (r1 & -> & Hr).
  apply list_elem_of_fmap in Hr as (r0 & -> & Hr).
  assert (start r0 ∈ start <$> rows) as Hin by (apply list_elem_of_fmap; eauto).
  apply elem_of_zip_with in Hr as ([pitch0 s0] & [d0 velocity0] & -> & Hps & Hdv).
  apply elem_of_zip_r in Hps. apply elem_of_zip_l in Hdv. simpl in *.
  assert (∃ q, s0 = Fin q) as [q ->].
  { apply elem_of_zip_with in Hps as (a & b & -> & Ha & Hb).
    apply list_elem_of_fmap in Ha as (r & -> & Hr).
    apply normal_finite in Hb as [z ->].
    destruct (Hfinite r Hr) as [Hs _]. destruct (start r); [done|]. by eexists. }
  assert (∃ d, d0 = Fin d) as [d ->].
  { apply list_elem_of_fmap in Hdv as (d1 & -> & Hd1).
    apply least_positive_duration in Hleast as (lo & -> & _).
    destruct (flt d1 (Fin 0)); [by eexists|].
    apply elem_of_zip_with in Hd1 as (a & b & -> & Ha & Hb).
    apply list_elem_of_fmap in Ha as (r1 & -> & Hr1).
    apply elem_of_zip_with in Hr1 as (r & x & -> & Hr & _).
    apply normal_finite in Hb as [z ->]. simpl.
    destruct (Hfinite r Hr) as [_ Hd]. destruct (duration r); [done|]. by eexists. }
  destruct (col_min_lower _ _ Hin) as (lo & -> & _).
  unfold hasna. simpl. done.
Qed.
End generate_properties.

Lemma first_candidate_run :
  ∃ p', RBMAnnealing.__generate 0%nat 8 trained_process = (Ok first_candidate, p').
Proof. eexists. vm_compute. reflexivity. Defined.

Lemma generate_row_invariants_witness :
  ∃ p' r,
    RBMAnnealing.__generate 0%nat 8 trained_process = (Ok first_candidate, p')
    ∧ first_candidate !! 0%nat = Some r
    ∧ ∃ s d,
        start r = Fin s ∧ duration r = Fin d ∧ end_ r = Fin (s + d)
        ∧ (0 <= s)%Q ∧ (0 <= d)%Q
        ∧ pitch r = RBMAnnealing.origin_pitch (extra r) `mod` 12
        ∧ 0 ≤ pitch r < 12
        ∧ RBMAnnealing.feature_pitch (extra r) = None.
Proof.
  destruct first_candidate_run as [p' Hrun]. exists p'. eexists.
  split; [exact Hrun|]. split; [reflexivity|].
  apply (generate_row_invariants 0%nat 8 trained_process p' first_candidate _ Hrun). left.
Defined.

Lemma generate_sorted_by_start_witness :
  ∃ p' ri rj,
    RBMAnnealing.__generate 0%nat 8 trained_process = (Ok first_candidate, p')
    ∧ first_candidate !! 0%nat = Some ri
    ∧ first_candidate !! 1%nat = Some rj
    ∧ ∃ si sj ei ej,
        start ri = Fin si ∧ start rj = Fin sj ∧ end_ ri = Fin ei ∧ end_ rj = Fin ej
        ∧ (si <= sj)%Q ∧ ((si == sj)%Q → (ei <= ej)%Q).
Proof.
  destruct first_candidate_run as [p' Hrun]. exists p'. eexists _, _.
  split; [exact Hrun|]. split; [reflexivity|]. split; [reflexivity|].
  apply (generate_sorted_by_start 0%nat 8 trained_process p' first_candidate 0 1 _ _ Hrun);
    [lia|reflexivity|reflexivity].
Defined.

Lemma generate_frame_witness :
  ∃ p',
    RBMAnnealing.__generate 0%nat 8 trained_process = (Ok first_candidate, p')
    ∧ RBMAnnealing.self p' = RBMAnnealing.self trained_process
    ∧ Forall2 same_other_columns (RBMAnnealing.heap trained_process !!! 0%nat)
        (RBMAnnealing.heap p' !!! 0%nat).
Proof.
  destruct first_candidate_run as [p' Hrun]. exists p'. split; [exact Hrun|].
  destruct (generate_frame 0%nat 8 trained_process p' _ Hrun) as (Hself & _ & Hcols).
  split; [exact Hself|exact Hcols].
Defined.

Lemma generate_raises_on_empty_table_witness :
  let p := RBMAnnealing.mkProcess (RBMAnnealing.self trained_process) {[ 0%nat := [] ]} [] in
  RBMAnnealing.heap p !!! 0%nat = []
  ∧ (RBMAnnealing.__generate 0%nat 8 p).1 = Raise ValueError.
Proof.
  intros p. assert (RBMAnnealing.heap p !!! 0%nat = []) as Hempty by reflexivity.
  split; [exact Hempty|]. exact (generate_raises_on_empty_table 0%nat 8 p Hempty).
Defined.

Lemma generate_row_count_witness :
  ∃ p',
    RBMAnnealing.__generate 0%nat 8 trained_process = (Ok first_candidate, p')
    ∧ (length first_candidate ≤ length (RBMAnnealing.heap trained_process !!! 0%nat))%nat.
Proof.
  destruct first_candidate_run as [p' Hrun]. exists p'. split; [exact Hrun|].
  exact (proj1 (generate_row_count 0%nat 8 trained_process p' first_candidate Hrun)).
Defined.

(** ** Further properties of [compose] and [learn] *)

Section compose_properties.
Import RBMAnnealing.
Context `{RandomSource G} `{External G}.

Lemma generate_fresh_rows (midi_df : loc) (octave : Z) (p p' : Process)
    (generated_df : DataFrame GenCols) :
  __generate midi_df octave p = (Ok generated_df, p') → fresh_rows generated_df.
Proof.
  intros Hgen r Hr.
  destruct (generate_durations_not_negative _ _ _ _ _ Hgen r Hr) as (d' & Hd' & Hpos).
  destruct (generate_row _ _ _ _ _ r Hgen Hr) as (pitch0 & s & d & velocity0 & -> & Hs).
  simpl in *. injection Hd' as <-. exists pitch0, s, d, velocity0.
  repeat split; done.
Qed.

(** One pass of the cycle loop that returns. *)
Lemma compose_cycle_ok (octave : Z) (i : nat) (s s' : Process)
    (params params' : list (option ndarray3))
    (dfs dfs' : list (option (DataFrame GenCols))) :
  compose_cycle octave (params, dfs) i s = (Ok (params', dfs'), s') →
  ∃ l generated_df,
    RBMAnnealing.midi_df (self s) = Some l
    ∧ __generate l octave s = (Ok generated_df, s')
    ∧ dfs' = <[i := Some generated_df]> dfs
    ∧ length params' = length params.
Proof.
  unfold compose_cycle.
  intros (l & s1 & [Hl ->]%getattr_ok & Hrun)%bind_ok.
  apply bind_ok in Hrun as (generated_df & s2 & Hgen & Hrun).
  apply bind_ok in Hrun as (c & s3 & Hc & Hrun).
  unfold get_self in Hc. injection Hc as <- <-.
  apply bind_ok in Hrun as (test_arr & s4 & [_ ->]%lift_ok & Hrun).
  apply bind_ok in Hrun as (sh & s5 & [_ ->]%getattr_ok & Hrun).
  exists l, generated_df. split; [done|].
  assert (∀ arr, assign_row params i sh arr = Ok params' → length params' = length params)
    as Hassign.
  { intros arr. unfold assign_row. destruct (decide (shape arr = sh)); [|by intros [=]].
    intros [= <-]. apply length_insert. }
  repeat case_decide.
  - apply bind_ok in Hrun as (ps & s6 & [Hps ->]%lift_ok & [[= <- <-] ->]%ret_ok).
    repeat split; try done. by eapply Hassign.
  - by apply ret_ok in Hrun as [[= <- <-] ->].
  - apply bind_ok in Hrun as (ps & s6 & [Hps ->]%lift_ok & [[= <- <-] ->]%ret_ok).
    repeat split; try done. by eapply Hassign.
Qed.

(** What the cycle loop of [compose] has done when it returns. *)
Lemma compose_cycles_ok (octave : Z) (n : nat) (l : loc) (p s' : Process)
    (params : list (option ndarray3)) (dfs : list (option (DataFrame GenCols))) :
  RBMAnnealing.midi_df (self p) = Some l →
  for_each (range 0 n) (compose_cycle octave) (replicate n None, replicate n None) p
  = (Ok (params, dfs), s') →
  self s' = self p
  ∧ length dfs = n
  ∧ (∀ j, (j < n)%nat → ∃ generated_df, dfs !! j = Some (Some generated_df)
                                         ∧ fresh_rows generated_df)
  ∧ (∀ other, other ≠ l → heap s' !! other = heap p !! other)
  ∧ Forall2 same_other_columns (heap p !!! l) (heap s' !!! l).
Proof.
  intros Hl Hrun.
  pose (Inv := λ (k : nat) (acc : list (option ndarray3) * list (option (DataFrame GenCols)))
                 (s : Process),
    self s = self p
    ∧ length acc.2 = n
    ∧ (∀ j, (j < k)%nat → ∃ generated_df, acc.2 !! j = Some (Some generated_df)
                                           ∧ fresh_rows generated_df)
    ∧ (∀ other, other ≠ l → heap s !! other = heap p !! other)
    ∧ Forall2 same_other_columns (heap p !!! l) (heap s !!! l)).
  assert (Inv n (params, dfs) s') as HInv; [|exact HInv].
  eapply (for_each_seq_state_invariant Inv); [| |exact Hrun].
  - intros k [ps ds] s [ps' ds'] s1 Hk (Hself & Hlen & Hdone & Hother & Hcols) Hbody.
    apply compose_cycle_ok in Hbody as (l' & generated_df & Hl' & Hgen & -> & _).
    rewrite Hself, Hl in Hl'. injection Hl' as <-.
    pose proof (generate_self _ _ _ _ _ Hgen) as Hself'.
    pose proof (generate_fresh_rows _ _ _ _ _ Hgen) as Hfresh.
    apply generate_heap_frame in Hgen as [Hother' Hcols'].
    unfold Inv. simpl in *.
    split; [congruence|]. split; [by rewrite length_insert|]. split; [|split].
    + intros j Hj. destruct (decide (j = k)) as [->|Hne].
      * exists generated_df. split; [|done]. apply list_lookup_insert_eq. lia.
      * rewrite list_lookup_insert_ne by done. apply Hdone. lia.
    + intros other Hne. rewrite Hother' by done. by apply Hother.
    + assert (Transitive (@same_other_columns Z)) as Htrans.
      { intros r1 r2 r3 (? & ? & ? & ?) (? & ? & ? & ?).
        unfold same_other_columns. repeat split; congruence. }
      by etrans.
  - unfold Inv. simpl.
    split; [done|]. split; [apply length_replicate|]. split; [intros; lia|].
    split; [done|]. apply Forall2_same_length_lookup. split; [done|].
    intros i r r' Hr Hr'. assert (r' = r) as -> by congruence. done.
Qed.

(** The steps of a call of [compose] that returns. *)
Lemma compose_run (octave : Z) (p p' : Process) (opt_df : DataFrame GenCols) :
  compose octave p = (Ok opt_df, p') →
  ∃ inferenced r sh params dfs s5 log g z i generated,
    inferenced_arr (self p) = Some inferenced
    ∧ rbm (self p) = Some r
    ∧ observed_shape (self p) = Some sh
    ∧ for_each (range 0 (annealing_cycles (self p))) (compose_cycle octave)
        (replicate (annealing_cycles (self p)) None,
         replicate (annealing_cycles (self p)) None) p
      = (Ok (params, dfs), s5)
    ∧ annealing (inferenced, r, batch_size (self p)) params (annealing_cycles (self p))
        (rng s5) = (log, g)
    ∧ optimum_index log = Ok z
    ∧ py_index (length dfs) z = Some i
    ∧ dfs !! i = Some (Some generated)
    ∧ opt_df = restore_pitch generated
    ∧ p' = mkProcess (set_composed log (<[i := Some opt_df]> dfs) (self s5)) (heap s5) g.
Proof.
  unfold compose.
  intros (inferenced & s1 & [Hinf ->]%getattr_ok & Hrun)%bind_ok.
  apply bind_ok in Hrun as (r & s2 & [Hr ->]%getattr_ok & Hrun).
  apply bind_ok in Hrun as (c & s3 & Hc & Hrun).
  unfold get_self in Hc. injection Hc as <- <-.
  apply bind_ok in Hrun as (sh & s4 & [Hsh ->]%getattr_ok & Hrun).
  apply bind_ok in Hrun as ([params dfs] & s5 & Hloop & Hrun).
  apply bind_ok in Hrun as (log & s6 & Hlog & Hrun).
  apply bind_ok in Hrun as (z & s7 & [Hz ->]%lift_ok & Hrun).
  apply bind_ok in Hrun as (slot & s8 & [Hslot ->]%lift_ok & Hrun).
  destruct slot as [generated|]; [|done].
  apply bind_ok in Hrun as ([] & s9 & Hset & [-> ->]%ret_ok).
  unfold py_getitem in Hslot.
  destruct (py_index (length dfs) z) as [i|] eqn:Hi; [|done].
  destruct (dfs !! i) as [slot|] eqn:Hdfs; [|done]. injection Hslot as ->.
  unfold draw in Hlog. destruct (annealing _ _ _ _) as [log' g] eqn:Hann.
  injection Hlog as -> <-.
  unfold update_self in Hset. injection Hset as <-. simpl.
  exists inferenced, r, sh, params, dfs, s5, log, g, z, i, generated.
  repeat split; done.
Qed.

(** [compose] leaves the composer trained and can be called again: it
    changes none of the attributes set by [__init__] and [learn]; of the
    tables it changes the learned one only, and there only the start and
    duration columns. *)
Theorem compose_keeps_training (octave : Z) (p p' : Process) (l : loc)
    (opt_df : DataFrame GenCols) :
  RBMAnnealing.midi_df (self p) = Some l →
  compose octave p = (Ok opt_df, p') →
  (cycle_len (self p') = cycle_len (self p)
   ∧ annealing_cycles (self p') = annealing_cycles (self p)
   ∧ observed_shape (self p') = observed_shape (self p)
   ∧ RBMAnnealing.midi_df (self p') = Some l
   ∧ rbm (self p') = rbm (self p)
   ∧ inferenced_arr (self p') = inferenced_arr (self p)
   ∧ is_Some (inferenced_arr (self p')))
  ∧ (∀ other, other ≠ l → heap p' !! other = heap p !! other)
  ∧ Forall2 same_other_columns (heap p !!! l) (heap p' !!! l).
Proof.
  intros Hl (inferenced & r & sh & params & dfs & s5 & log & g & z & i & generated
             & Hinf & Hr & Hsh & Hloop & _ & _ & _ & _ & _ & ->)%compose_run.
  apply (compose_cycles_ok _ _ l) in Hloop as (Hself & _ & _ & Hother & Hcols); [|done].
  simpl. rewrite Hself, Hinf. repeat split; done.
Qed.

(** After [compose] the two read-only properties can be read, and the list
    of generated tables has one table per annealing cycle, none missing. *)
Theorem compose_keeps_every_candidate (octave : Z) (p p' : Process) (l : loc)
    (opt_df : DataFrame GenCols) :
  RBMAnnealing.midi_df (self p) = Some l →
  compose octave p = (Ok opt_df, p') →
  ∃ candidates log,
    get_generated_df_list p' = (Ok candidates, p')
    ∧ get_predicted_log_arr p' = (Ok log, p')
    ∧ length candidates = annealing_cycles (self p)
    ∧ ∀ j, (j < annealing_cycles (self p))%nat → ∃ df, candidates !! j = Some (Some df).
Proof.
  intros Hl (inferenced & r & sh & params & dfs & s5 & log & g & z & i & generated
             & _ & _ & _ & Hloop & _ & _ & Hi & _ & -> & ->)%compose_run.
  apply (compose_cycles_ok _ _ l) in Hloop as (_ & Hlen & Hall & _); [|done].
  exists (<[i := Some (restore_pitch generated)]> dfs), log.
  rewrite length_insert.
  split; [reflexivity|]. split; [reflexivity|]. split; [exact Hlen|].
  intros j Hj. destruct (decide (j = i)) as [->|Hne].
  - eexists. apply list_lookup_insert_eq. lia.
  - rewrite list_lookup_insert_ne by done. destruct (Hall j Hj) as (df & Hdf & _). eauto.
Qed.

(** The table that [compose] returns carries the generated pitch in
    [pitch], with octave, and its pitch class, from 0 to 11, in
    [feature_pitch]; starts and durations are not negative and
    [end = start + duration]. *)
Theorem compose_restores_pitch (octave : Z) (p p' : Process) (l : loc)
    (opt_df : DataFrame GenCols) (r : Row GenCols) :
  RBMAnnealing.midi_df (self p) = Some l →
  compose octave p = (Ok opt_df, p') →
  r ∈ opt_df →
  pitch r = origin_pitch (extra r)
  ∧ feature_pitch (extra r) = Some (pitch r `mod` 12)
  ∧ ∃ s d, start r = Fin s ∧ duration r = Fin d ∧ end_ r = Fin (s + d)
           ∧ (0 <= s)%Q ∧ (0 <= d)%Q.
Proof.
  intros Hl (inferenced & r0 & sh & params & dfs & s5 & log & g & z & i & generated
             & _ & _ & _ & Hloop & _ & _ & Hi & Hdfs & -> & ->)%compose_run.
  apply (compose_cycles_ok _ _ l) in Hloop as (_ & Hlen & Hall & _); [|done].
  destruct (Hall i) as (generated' & Hdfs' & Hfresh).
  { rewrite <- Hlen. by eapply lookup_lt_Some. }
  assert (generated' = generated) as -> by congruence.
  unfold restore_pitch. intros (r1 & -> & Hr1)%list_elem_of_fmap.
  destruct (Hfresh r1 Hr1) as (pitch0 & s & d & velocity0 & -> & Hs & Hd). simpl.
  split; [done|]. split; [done|]. by exists s, d.
Qed.
End compose_properties.

Lemma bind_raise {S A B} (m : M S A) (k : A → M S B) (s s' : S) (e : exn) :
  bind m k s = (Raise e, s') ↔
  m s = (Raise e, s') ∨ ∃ a s1, m s = (Ok a, s1) ∧ k a s1 = (Raise e, s').
Proof.
  unfold bind. destruct (m s) as [[a|e'] s1]; split.
  - intros Hk. right. by exists a, s1.
  - intros [|(a' & s2 & [= -> ->] & Hk)]; done.
  - intros [= -> ->]. by left.
  - intros [[= -> ->]|(a' & s2 & [=] & _)]. done.
Qed.

(** A loop that raises does so in one of its passes, entered in a state that
    the returning passes before it have kept in the invariant. *)
Lemma for_each_raise {S A B} (Q : S → Prop) (l : list A) (body : B → A → M S B) :
  (∀ b x s b' s', Q s → body b x s = (Ok b', s') → Q s') →
  ∀ acc s e s', Q s → for_each l body acc s = (Raise e, s') →
    ∃ b x s0, Q s0 ∧ body b x s0 = (Raise e, s').
Proof.
  intros Hbody. induction l as [|x l IH]; intros acc s e s' Hs; simpl; [done|].
  intros [Hraise|(b & s1 & Hok & Hrest)]%bind_raise.
  - by exists acc, x, s.
  - eapply IH; [|exact Hrest]. by eapply Hbody.
Qed.

Section learn_properties.
Import RBMAnnealing.
Context `{RandomSource G} `{External G}.

Lemma dropna_set_pitch_length {X} (df : DataFrame X) (f : Z → Z) :
  length (dropna ((λ r, set_pitch r (f (pitch r))) <$> df)) = length (dropna df).
Proof.
  unfold dropna. induction df as [|r df IH]; [done|].
  rewrite fmap_cons, !filter_cons. change (hasna (set_pitch r (f (pitch r)))) with (hasna r).
  case_decide; simpl; by rewrite IH.
Qed.

(** On a table that keeps fewer than [cycle_len] rows, [learn] raises a
    [ValueError] after it has stored the pitch range and rewritten the pitch
    column of the caller's table; the attributes that [compose] reads stay
    as they were and no random number is drawn. *)
Theorem learn_raises_on_short_table (midi_df : loc) (p : Process) :
  (length (dropna (heap p !!! midi_df)) < cycle_len (self p))%nat →
  ∃ p',
    learn midi_df p = (Raise ValueError, p')
    ∧ heap p' = <[midi_df := (λ r, set_pitch r (pitch r `mod` 12)) <$> (heap p !!! midi_df)]>
                  (heap p)
    ∧ is_Some (max_pitch (self p')) ∧ is_Some (min_pitch (self p'))
    ∧ inferenced_arr (self p') = inferenced_arr (self p)
    ∧ rbm (self p') = rbm (self p)
    ∧ observed_shape (self p') = observed_shape (self p)
    ∧ RBMAnnealing.midi_df (self p') = RBMAnnealing.midi_df (self p)
    ∧ rng p' = rng p.
Proof.
  intros Hshort.
  unfold learn, bind, load, update_self, store, get_self, preprocess, lift. simpl.
  rewrite lookup_total_insert_eq.
  rewrite preprocess_negative_dimension;
    [|by rewrite (dropna_set_pitch_length _ (λ z, z `mod` 12))].
  eexists. split; [reflexivity|]. simpl. repeat split; by eexists.
Qed.

(** When [learn] returns, the table kept at least [cycle_len] rows, the
    observed shape is (rows - cycle_len, cycle_len, 4) for the rows without
    missing values, and the composer holds the address of the caller's
    table, a model and the inferred array. *)
Theorem learn_returns_trained (midi_df : loc) (p p' : Process) :
  learn midi_df p = (Ok (), p') →
  let rows := length (dropna (heap p !!! midi_df)) in
  (cycle_len (self p) ≤ rows)%nat
  ∧ observed_shape (self p') = Some ((rows - cycle_len (self p))%nat, cycle_len (self p), 4%nat)
  ∧ RBMAnnealing.midi_df (self p') = Some midi_df
  ∧ is_Some (rbm (self p'))
  ∧ (∃ inferenced, inferenced_arr (self p') = Some inferenced)
  ∧ cycle_len (self p') = cycle_len (self p)
  ∧ annealing_cycles (self p') = annealing_cycles (self p).
Proof.
  unfold learn, bind, load, update_self, store, get_self, preprocess, lift, draw. simpl.
  rewrite lookup_total_insert_eq.
  unfold __preprocess.
  rewrite length_normalise, (dropna_set_pitch_length _ (λ z, z `mod` 12)).
  case_decide as Hrows; simpl; [done|].
  destruct (rbm_learn _ _ _ _ _) as [model g1]; simpl.
  destruct (rbm_inference _ _ _ _ _) as [inferenced g2]; simpl.
  intros [= <-]. simpl. split; [lia|]. repeat split; by eexists.
Qed.

Lemma learn_sets_attributes (midi_df : loc) (p p' : Process) :
  learn midi_df p = (Ok (), p') →
  is_Some (inferenced_arr (self p')) ∧ is_Some (rbm (self p'))
  ∧ is_Some (observed_shape (self p')) ∧ is_Some (RBMAnnealing.midi_df (self p')).
Proof.
  unfold learn, bind, load, update_self, store, get_self, preprocess, lift, draw. simpl.
  destruct (__preprocess _ _) as [observed_arr|e]; simpl; [|done].
  destruct (rbm_learn _ _ _ _ _) as [model g1]; simpl.
  destruct (rbm_inference _ _ _ _ _) as [inferenced g2]; simpl.
  intros [= <-]. simpl. repeat split; by eexists.
Qed.

Lemma generate_raises_value_error (midi_df : loc) (octave : Z) (p p' : Process) (e : exn) :
  __generate midi_df octave p = (Raise e, p') → e = ValueError.
Proof.
  unfold __generate, bind, load, store, draw, lift, ret. simpl.
  destruct (normal _ _ _ (rng p)) as [noise g1]; simpl.
  destruct (normal _ _ _ g1) as [noise' g2]; simpl.
  destruct (np_min _) as [least|e'] eqn:Hmin; simpl.
  - destruct (normal _ _ _ g2) as [velocities g3]; simpl.
    destruct (twelve_tone_generate _ _ g3) as [pitches g4]; simpl.
    unfold np_c_. case_decide; simpl; [done|]. by intros [= <- _].
  - intros [= <- _]. unfold np_min in Hmin.
    destruct (filter _ _); [by injection Hmin|]. by destruct (forallb _ _).
Qed.

Lemma preprocess_raises_value_error {X} (df : DataFrame X) (cycle_len : nat) (e : exn) :
  __preprocess df cycle_len = Raise e → e = ValueError.
Proof. unfold __preprocess. case_decide; [by intros [= <-]|done]. Qed.

Lemma optimum_index_raises (log : ndarray2) (e : exn) :
  optimum_index log = Raise e → e = ValueError ∨ e = IndexError.
Proof.
  unfold optimum_index, column. case_decide; [|intros [= <-]; by right].
  destruct (np_min _) as [m|e'] eqn:Hmin.
  - destruct (filter _ _) as [|r rest]; [intros [= <-]; by right|].
    unfold py_int. destruct (r !!! 4%nat); [intros [= <-]; by left|done].
  - intros [= <-]. left. unfold np_min in Hmin.
    destruct (_ <$> _); [by injection Hmin|]. by destruct (forallb _ _).
Qed.

(** The errors of a single cycle of a composer with its table and its
    observed shape. *)
Lemma compose_cycle_raises (octave : Z) (acc : list (option ndarray3) * list (option (DataFrame GenCols)))
    (i : nat) (s s' : Process) (e : exn) :
  is_Some (RBMAnnealing.midi_df (self s)) →
  is_Some (observed_shape (self s)) →
  compose_cycle octave acc i s = (Raise e, s') → e = ValueError.
Proof.
  intros [l Hl] [sh Hsh]. destruct acc as [params dfs]. unfold compose_cycle.
  intros [Hraise|(l' & s1 & [Hl' ->]%getattr_ok & Hrun)]%bind_raise.
  { unfold getattr in Hraise. by rewrite Hl in Hraise. }
  apply bind_raise in Hrun as [Hgen|(generated_df & s2 & Hgen & Hrun)].
  { by eapply generate_raises_value_error. }
  apply generate_self in Hgen as Hself.
  apply bind_raise in Hrun as [Hraise|(c & s3 & Hc & Hrun)]; [done|].
  unfold get_self in Hc. injection Hc as <- <-.
  apply bind_raise in Hrun as [Hraise|(test_arr & s4 & [_ ->]%lift_ok & Hrun)].
  { unfold preprocess, lift in Hraise. injection Hraise as Hraise _.
    by eapply preprocess_raises_value_error. }
  apply bind_raise in Hrun as [Hraise|(sh' & s5 & [_ ->]%getattr_ok & Hrun)].
  { unfold getattr in Hraise. rewrite Hself, Hsh in Hraise. done. }
  assert (∀ arr e', assign_row params i sh' arr = Raise e' → e' = ValueError) as Hassign.
  { intros arr e'. unfold assign_row.
    destruct (decide (shape arr = sh')); [done|by intros [= <-]]. }
  repeat case_decide.
  - apply bind_raise in Hrun as [Hraise|(ps & s6 & _ & Hret)]; [|done].
    unfold lift in Hraise. injection Hraise as Hraise _. by eapply Hassign.
  - done.
  - apply bind_raise in Hrun as [Hraise|(ps & s6 & _ & Hret)]; [|done].
    unfold lift in Hraise. injection Hraise as Hraise _. by eapply Hassign.
Qed.

(** Once [learn] has returned, [compose] cannot fail for want of training:
    whatever it raises is a [ValueError], an [IndexError] or a [TypeError],
    never the [AttributeError] of an attribute that was not set. *)
Theorem compose_after_learn_finds_attributes (midi_df : loc) (octave : Z)
    (p p1 p2 : Process) (res : result (DataFrame GenCols)) :
  learn midi_df p = (Ok (), p1) →
  compose octave p1 = (res, p2) →
  ∀ e, res = Raise e → e = ValueError ∨ e = IndexError ∨ e = TypeError.
Proof.
  intros Hlearn Hcompose e ->.
  apply learn_sets_attributes in Hlearn
    as ([inferenced Hinf] & [r Hr] & [sh Hsh] & [l Hl]).
  revert Hcompose. unfold compose.
  intros [Hraise|(inf' & s1 & [_ ->]%getattr_ok & Hrun)]%bind_raise.
  { unfold getattr in Hraise. by rewrite Hinf in Hraise. }
  apply bind_raise in Hrun as [Hraise|(r' & s2 & [_ ->]%getattr_ok & Hrun)].
  { unfold getattr in Hraise. by rewrite Hr in Hraise. }
  apply bind_raise in Hrun as [Hraise|(c & s3 & Hc & Hrun)]; [done|].
  unfold get_self in Hc. injection Hc as <- <-.
  apply bind_raise in Hrun as [Hraise|(sh' & s4 & [_ ->]%getattr_ok & Hrun)].
  { unfold getattr in Hraise. by rewrite Hsh in Hraise. }
  apply bind_raise in Hrun as [Hloop|([params dfs] & s5 & _ & Hrun)].
  { left.
    apply (for_each_raise (λ s, self s = self p1)) in Hloop
      as (b & x & s0 & Hs0 & Hbody); [| |done].
    - eapply compose_cycle_raises; [| |exact Hbody]; rewrite Hs0; by eexists.
    - intros [ps ds] x s [ps' ds'] s' Hs Hbody.
      apply compose_cycle_ok in Hbody as (l' & generated_df & _ & Hgen & _).
      apply generate_self in Hgen. congruence. }
  apply bind_raise in Hrun as [Hraise|(log & s6 & _ & Hrun)].
  { unfold draw in Hraise. by destruct (annealing _ _ _ _). }
  apply bind_raise in Hrun as [Hraise|(z & s7 & _ & Hrun)].
  { unfold lift in Hraise. injection Hraise as Hraise _.
    apply optimum_index_raises in Hraise as [->| ->]; eauto. }
  apply bind_raise in Hrun as [Hraise|(slot & s8 & _ & Hrun)].
  { unfold lift, py_getitem in Hraise. right; left.
    destruct (py_index _ _); [destruct (_ !! _)|]; by simplify_eq. }
  destruct slot as [generated|].
  - apply bind_raise in Hrun as [Hraise|(u & s9 & _ & Hret)]; done.
  - unfold raise in Hrun. injection Hrun as <- _. by right; right.
Qed.
End learn_properties.

Lemma composed_table_run :
  ∃ p', RBMAnnealing.compose 8 trained_process = (Ok composed_table, p').
Proof. eexists. vm_compute. reflexivity. Defined.

Lemma trained_process_midi_df :
  RBMAnnealing.midi_df (RBMAnnealing.self trained_process) = Some 0%nat.
Proof. reflexivity. Qed.

Lemma compose_keeps_training_witness :
  ∃ p',
    RBMAnnealing.compose 8 trained_process = (Ok composed_table, p')
    ∧ RBMAnnealing.inferenced_arr (RBMAnnealing.self p')
      = RBMAnnealing.inferenced_arr (RBMAnnealing.self trained_process)
    ∧ Forall2 same_other_columns (RBMAnnealing.heap trained_process !!! 0%nat)
        (RBMAnnealing.heap p' !!! 0%nat).
Proof.
  destruct composed_table_run as [p' Hrun]. exists p'. split; [exact Hrun|].
  destruct (compose_keeps_training 8 trained_process p' 0%nat composed_table
              trained_process_midi_df Hrun) as ((_ & _ & _ & _ & _ & Hinf & _) & _ & Hcols).
  split; [exact Hinf|exact Hcols].
Defined.

Lemma compose_keeps_every_candidate_witness :
  ∃ p' candidates log,
    RBMAnnealing.compose 8 trained_process = (Ok composed_table, p')
    ∧ RBMAnnealing.get_generated_df_list p' = (Ok candidates, p')
    ∧ RBMAnnealing.get_predicted_log_arr p' = (Ok log, p')
    ∧ length candidates = 3%nat.
Proof.
  destruct composed_table_run as [p' Hrun].
  destruct (compose_keeps_every_candidate 8 trained_process p' 0%nat composed_table
              trained_process_midi_df Hrun) as (candidates & log & Hlist & Hlog & Hlen & _).
  exists p', candidates, log. split; [exact Hrun|]. split; [exact Hlist|].
  split; [exact Hlog|exact Hlen].
Defined.

Lemma compose_restores_pitch_witness :
  ∃ p' r,
    RBMAnnealing.compose 8 trained_process = (Ok composed_table, p')
    ∧ composed_table !! 0%nat = Some r
    ∧ pitch r = 96
    ∧ RBMAnnealing.feature_pitch (extra r) = Some (pitch r `mod` 12).
Proof.
  destruct composed_table_run as [p' Hrun]. exists p'. eexists.
  split; [exact Hrun|]. split; [reflexivity|]. split; [reflexivity|].
  eapply (compose_restores_pitch 8 trained_process p' 0%nat composed_table _
            trained_process_midi_df Hrun). left.
Defined.

Lemma learn_raises_on_short_table_witness :
  (length (dropna (RBMAnnealing.heap long_window_process !!! 0%nat)) < 5)%nat
  ∧ ∃ p', RBMAnnealing.learn 0%nat long_window_process = (Raise ValueError, p')
          ∧ RBMAnnealing.inferenced_arr (RBMAnnealing.self p') = None.
Proof.
  assert (length (dropna (RBMAnnealing.heap long_window_process !!! 0%nat)) < 5)%nat
    as Hshort by (vm_compute; lia).
  split; [exact Hshort|].
  destruct (learn_raises_on_short_table 0%nat long_window_process Hshort)
    as (p' & Hrun & _ & _ & _ & Hinf & _).
  exists p'. split; [exact Hrun|]. rewrite Hinf. reflexivity.
Defined.

Lemma learn_returns_trained_witness :
  RBMAnnealing.learn 0%nat fresh_process = (Ok (), trained_process)
  ∧ RBMAnnealing.observed_shape (RBMAnnealing.self trained_process) = Some (2, 2, 4)%nat.
Proof.
  assert (RBMAnnealing.learn 0%nat fresh_process = (Ok (), trained_process)) as Hrun
    by (vm_compute; reflexivity).
  split; [exact Hrun|].
  destruct (learn_returns_trained 0%nat fresh_process trained_process Hrun)
    as (_ & Hshape & _).
  rewrite Hshape. reflexivity.
Defined.

Lemma compose_after_learn_finds_attributes_witness :
  ∃ p1 p2,
    RBMAnnealing.learn 0%nat no_cycle_process = (Ok (), p1)
    ∧ RBMAnnealing.compose 8 p1 = (Raise ValueError, p2)
    ∧ (ValueError = ValueError ∨ ValueError = IndexError ∨ ValueError = TypeError).
Proof.
  eexists _, _. split; [vm_compute; reflexivity|].
  split; [vm_compute; reflexivity|].
  eapply (compose_after_learn_finds_attributes 0%nat 8 no_cycle_process);
    [vm_compute; reflexivity|vm_compute; reflexivity|reflexivity].
Defined.

Lemma generate_writes_start_jitter_witness :
  ∃ p',
    RBMAnnealing.__generate 0%nat 8 trained_process = (Ok first_candidate, p')
    ∧ start <$> (RBMAnnealing.heap p' !!! 0%nat)
      = zip_with fadd (start <$> (RBMAnnealing.heap trained_process !!! 0%nat))
          (normal (Fin 0.01) (Fin 0.01) 4 (RBMAnnealing.rng trained_process)).1.
Proof.
  destruct first_candidate_run as [p' Hrun]. exists p'. split; [exact Hrun|].
  exact (generate_writes_start_jitter 0%nat 8 trained_process p' first_candidate Hrun).
Defined.

(** ** Further edge cases *)

Lemma filter_none {A} (P : A → Prop) `{∀ x, Decision (P x)} (l : list A) :
  (∀ x, x ∈ l → ¬ P x) → filter P l = [].
Proof.
  induction l as [|x l IH]; intros Hall; [done|].
  rewrite filter_cons_False by (apply Hall; left).
  apply IH. intros y Hy. apply Hall. by right.
Qed.

(** A missing score anywhere in the log makes the index expression of
    [compose] raise an [IndexError]: the minimum is [NaN] and no record
    compares equal to it. *)
Theorem optimum_index_nan_score (log : RBMAnnealing.ndarray2) (r : list float64) :
  (5 < (RBMAnnealing.shape2 log).2)%nat →
  r ∈ RBMAnnealing.data2 log →
  r !!! 5%nat = NaN →
  RBMAnnealing.optimum_index log = Raise IndexError.
Proof.
  intros Hcols Hr Hnan. unfold RBMAnnealing.optimum_index, RBMAnnealing.column.
  rewrite decide_True by done.
  assert (RBMAnnealing.np_min ((λ r, r !!! 5%nat) <$> RBMAnnealing.data2 log) = Ok NaN) as ->.
  { unfold RBMAnnealing.np_min.
    destruct (_ <$> _) as [|x scores] eqn:Hscores.
    { apply fmap_nil_inv in Hscores. rewrite Hscores in Hr. by apply elem_of_nil in Hr. }
    destruct (forallb _ _) eqn:Hall; [|done]. exfalso.
    rewrite forallb_forall in Hall.
    assert (negb (isnan NaN) = true) as Hfalse; [|done]. apply Hall, list_elem_of_In.
    rewrite <- Hscores, <- Hnan. apply list_elem_of_fmap. by exists r. }
  rewrite filter_none; [done|]. intros x _. unfold feqb.
  destruct (x !!! 5%nat); simpl; by intros ?.
Qed.

Lemma optimum_index_nan_score_witness :
  let log := RBMAnnealing.mkArr2 (2, 6)%nat
               [ [Fin 0; Fin 0; Fin 0; Fin 0; Fin 0; Fin 1];
                 [Fin 0; Fin 0; Fin 0; Fin 0; Fin 1; NaN] ] in
  RBMAnnealing.optimum_index log = Raise IndexError.
Proof.
  intros log.
  apply (optimum_index_nan_score log [Fin 0; Fin 0; Fin 0; Fin 0; Fin 1; NaN]).
  - simpl. lia.
  - right. left.
  - reflexivity.
Defined.

Section sampler_edges.
Import BarNoiseSampler.

Lemma single_member_list (l : list Z) (p : Z) :
  NoDup l → (∀ x, x ∈ l ↔ x = p) → l = [p].
Proof.
  intros Hnodup Hmem. destruct l as [|x l].
  { pose proof (proj2 (Hmem p) eq_refl) as Hp. by apply elem_of_nil in Hp. }
  assert (x = p) as -> by (apply Hmem; left).
  destruct l as [|y l]; [done|]. exfalso.
  assert (y = p) as -> by (apply Hmem; right; left).
  apply NoDup_cons in Hnodup as [Hnotin _]. apply Hnotin. left.
Qed.

(** Tables whose rows all carry the same program give a sampler with one
    channel. *)
Theorem init_single_program (midi_df_list : list (DataFrame Z)) (batch_size seq_len : nat)
    (time_fraction : Q) (min_pitch max_pitch : Z) (program : Z) :
  (∀ df r, df ∈ midi_df_list → r ∈ df → extra r = program) →
  (∃ df r, df ∈ midi_df_list ∧ r ∈ df) →
  let self := __init__ midi_df_list batch_size seq_len time_fraction min_pitch max_pitch in
  get_program_list self = [program] ∧ get_channel self = 1%nat.
Proof.
  intros Hsame (df & r & Hdf & Hr) self.
  destruct (init_program_list midi_df_list batch_size seq_len time_fraction
              min_pitch max_pitch) as (Hnodup & Hlen & Hmem).
  fold self in Hnodup, Hlen, Hmem.
  assert (program_list self = [program]) as Hlist.
  { apply single_member_list; [done|]. intros x. rewrite Hmem. split.
    - intros (df' & r' & Hdf' & Hr' & <-). by eapply Hsame.
    - intros ->. exists df, r. split; [done|]. split; [done|]. by eapply Hsame. }
  unfold get_program_list. split; [done|]. by rewrite Hlen, Hlist.
Qed.

Lemma init_single_program_witness :
  get_program_list two_note_sampler = [0] ∧ get_channel two_note_sampler = 1%nat.
Proof.
  apply (init_single_program [two_note_table] 1 1 0.1 24 108 0).
  - intros df r Hdf%list_elem_of_singleton Hr. subst df.
    repeat (apply elem_of_cons in Hr as [->|Hr]; [reflexivity|]).
    by apply elem_of_nil in Hr.
  - exists two_note_table, (mkRow 50 (Fin 0) (Fin 1) (Fin 1) 64 0).
    split; left.
Defined.

Lemma mark_pitches_raises (self : t) (df : DataFrame Z) (arr : list Q) (e : exn) :
  mark_pitches self df arr = Raise e → e = IndexError.
Proof.
  revert arr. induction df as [|r df IH]; intros arr; simpl; [done|].
  unfold mark_pitch, py_setitem. case_decide; [|apply IH].
  destruct (py_index _ _); [apply IH|by intros [= <-]].
Qed.

Lemma mark_pitches_ok_indices (self : t) (df : DataFrame Z) (arr v : list Q) (r : Row Z) :
  mark_pitches self df arr = Ok v →
  r ∈ df → pitch r < max_pitch self - 1 →
  is_Some (py_index (length arr) (pitch r - min_pitch self)).
Proof.
  revert arr. induction df as [|r' df IH]; intros arr; simpl.
  - by intros _ ?%elem_of_nil.
  - unfold mark_pitch, py_setitem. intros Hrun [->|Hr]%elem_of_cons Hp.
    + rewrite decide_True in Hrun by done. by destruct (py_index _ _).
    + case_decide.
      * destruct (py_index _ _) as [i|]; [|done].
        rewrite <- (length_insert arr i 1%Q). by eapply IH.
      * by eapply IH.
Qed.

(** A note that can be marked and lies more than the width of the vector
    below [min_pitch] makes [__convert_into_feature] raise an [IndexError]:
    its index is negative beyond the reach of counting from the end. *)
Theorem convert_into_feature_index_error (self : t) (df : DataFrame Z) (r : Row Z) :
  0 ≤ dim self →
  r ∈ df →
  pitch r < max_pitch self - 1 →
  pitch r - min_pitch self < - dim self →
  __convert_into_feature self df = Raise IndexError.
Proof.
  intros Hdim Hr Hp Hlow. unfold __convert_into_feature, np_zeros.
  rewrite decide_False by lia.
  destruct (mark_pitches _ _ _) as [v|e] eqn:Hrun.
  - apply (mark_pitches_ok_indices _ _ _ _ r) in Hrun as [i Hi]; [|done|done].
    rewrite length_replicate in Hi. unfold py_index in Hi.
    repeat case_decide; try done; lia.
  - by apply mark_pitches_raises in Hrun as ->.
Qed.

Lemma convert_into_feature_index_error_witness :
  let self := __init__ [] 1 1 0.1 100 108 in
  let note := mkRow 50 (Fin 0) (Fin 1) (Fin 1) 64 0 in
  __convert_into_feature self [note] = Raise IndexError.
Proof.
  intros self note.
  apply (convert_into_feature_index_error self [note] note).
  - vm_compute. discriminate.
  - left.
  - vm_compute. reflexivity.
  - vm_compute. reflexivity.
Defined.

(** The last position of the vector, the one of pitch [max_pitch - 1], is
    never set by notes at or above [min_pitch]: the guard of the loop
    excludes [max_pitch - 1] itself. *)
Theorem convert_into_feature_top_unmarked (self : t) (df : DataFrame Z) (v : list Q) :
  dim self = max_pitch self - min_pitch self →
  1 ≤ dim self →
  (∀ r, r ∈ df → min_pitch self ≤ pitch r) →
  __convert_into_feature self df = Ok v →
  v !! Z.to_nat (dim self - 1) = Some 0%Q.
Proof.
  intros Hdim Hpos Hlow Hrun.
  destruct (convert_into_feature_vector _ _ _ Hrun) as (_ & Hlen & Hbits).
  destruct (lookup_lt_is_Some_2 v (Z.to_nat (dim self - 1))) as [e He]; [lia|].
  rewrite He. f_equal.
  assert (bit e) as [->| ->] by (eapply Forall_forall in Hbits; [done|];
                                 by eapply list_elem_of_lookup_2); [done|].
  exfalso. apply (convert_into_feature_bits _ _ _ Hrun) in He as (r & Hr & Hp & Hi).
  specialize (Hlow r Hr). unfold py_index in Hi.
  repeat case_decide; simplify_eq; lia.
Qed.

Lemma convert_into_feature_top_unmarked_witness :
  let self := __init__ [] 1 1 0.1 24 28 in
  let notes := [ mkRow 26 (Fin 0) (Fin 1) (Fin 1) 64 0; mkRow 27 (Fin 0) (Fin 1) (Fin 1) 64 0 ] in
  __convert_into_feature self notes = Ok [0%Q; 0%Q; 1%Q; 0%Q]
  ∧ [0%Q; 0%Q; 1%Q; 0%Q] !! Z.to_nat (dim self - 1) = Some 0%Q.
Proof.
  intros self notes.
  assert (__convert_into_feature self notes = Ok [0%Q; 0%Q; 1%Q; 0%Q]) as Hrun
    by (vm_compute; reflexivity).
  split; [exact Hrun|].
  apply (convert_into_feature_top_unmarked self notes _); [reflexivity| | |exact Hrun].
  - vm_compute. discriminate.
  - intros r Hr. repeat (apply elem_of_cons in Hr as [->|Hr]; [vm_compute; discriminate|]).
    by apply elem_of_nil in Hr.
Defined.
End sampler_edges.
(** ** The selection of [compose] *)

Section compose_selection.
Import RBMAnnealing.
Context `{RandomSource G} `{External G}.




End compose_selection.

(** ** Candidates without rows *)


Section empty_candidates.
Import RBMAnnealing.
Context `{RandomSource G} `{External G}.

#[local] Instance same_missing_refl {X} : Reflexive (@same_missing X).
Proof. by intros r. Qed.

#[local] Instance same_missing_trans {X} : Transitive (@same_missing X).
Proof.
  intros r1 r2 r3 (? & ? & ?) (? & ? & ?). unfold same_missing. repeat split; congruence.
Qed.














End empty_candidates.



